(** * python-versions-pz: version keys, release classes, glob filters and
      asset names

    A shallow embedding of the pure parts of
    [.github/scripts/get_python_version.py] (class [PythonManifestParser]) and
    [.github/scripts/generate_partial_manifest.py], with the properties the
    specification states about them.

    Conventions.
    - A Python [str] is a list of characters; a character is a code point
      below 256, so that [\d] is exactly [0-9], [[a-z]] is the ASCII lower
      case and [str.isspace] is the Latin-1 white space.
    - A Python [int] is a [Z]; [int()] of a string has the interpreter's
      default limit of 4300 digits, above which it raises [ValueError].
    - A function that can raise returns an [option]; [None] is the raised
      exception.  [Python's None] as a value is also an [option], at the
      places where the source tests for it. *)

From Stdlib Require Import List ZArith NArith Ascii String Bool Arith Lia.
From Stdlib Require Import Permutation Sorted.
Import ListNotations.

Open Scope string_scope.
Open Scope list_scope.
Open Scope Z_scope.

Definition pystr : Type := list ascii.

Definition str (s : string) : pystr := list_ascii_of_string s.

Coercion str : string >-> pystr.

Definition orelse {A : Type} (a b : option A) : option A :=
  match a with
  | Some x => Some x
  | None => b
  end.

Notation "x <- e ;; f" := (match e with Some x => f | None => None end)
  (at level 61, e at next level, right associativity).

(** ** The Python built-ins the scripts call *)

Module Py.

Definition code (c : ascii) : N := N_of_ascii c.

Definition chr_eqb (c d : ascii) : bool := Ascii.eqb c d.

Definition isdigit (c : ascii) : bool :=
  ((48 <=? code c) && (code c <=? 57))%N.

Definition islower_az (c : ascii) : bool :=
  ((97 <=? code c) && (code c <=? 122))%N.

Definition isupper_az (c : ascii) : bool :=
  ((65 <=? code c) && (code c <=? 90))%N.

Definition isalnum_ascii (c : ascii) : bool :=
  isdigit c || islower_az c || isupper_az c.

(** [str.isspace] on one character of the Latin-1 range. *)
Definition isspace (c : ascii) : bool :=
  (((9 <=? code c) && (code c <=? 13))
   || ((28 <=? code c) && (code c <=? 32))
   || (code c =? 133) || (code c =? 160))%N.

(** [s.startswith(p)] *)
Fixpoint startswith (s p : pystr) {struct p} : bool :=
  match p, s with
  | [], _ => true
  | _ :: _, [] => false
  | c :: p', d :: s' => chr_eqb c d && startswith s' p'
  end.

(** [s.endswith(p)] *)
Definition endswith (s p : pystr) : bool := startswith (rev s) (rev p).

(** [p in s] for two strings *)
Fixpoint contains (p s : pystr) : bool :=
  startswith s p
  || match s with
     | [] => false
     | _ :: s' => contains p s'
     end.

(** [x in l] for a list of strings *)
Definition str_eqb (a b : pystr) : bool :=
  if list_eq_dec ascii_dec a b then true else false.

Definition mem (x : pystr) (l : list pystr) : bool := existsb (str_eqb x) l.

Fixpoint lstrip (s : pystr) : pystr :=
  match s with
  | c :: s' => if isspace c then lstrip s' else s
  | [] => []
  end.

(** [s.strip()] *)
Definition strip (s : pystr) : pystr := rev (lstrip (rev (lstrip s))).

(** [s.split(sep)] for a one-character separator *)
Fixpoint split (sep : ascii) (s : pystr) : list pystr :=
  match s with
  | [] => [[]]
  | c :: s' =>
      if chr_eqb c sep then [] :: split sep s'
      else match split sep s' with
           | f :: fs => (c :: f) :: fs
           | [] => [[c]]
           end
  end.

(** [sep.join(l)] *)
Fixpoint join (sep : pystr) (l : list pystr) : pystr :=
  match l with
  | [] => []
  | [f] => f
  | f :: fs => f ++ sep ++ join sep fs
  end.

(** [s.replace(old, new)] for a non-empty [old]: occurrences are found left
    to right and do not overlap.  [skip] counts the characters of a matched
    occurrence that are still to be dropped. *)
Fixpoint replace_from (old new : pystr) (skip : nat) (s : pystr) : pystr :=
  match s with
  | [] => []
  | c :: s' =>
      match skip with
      | S k => replace_from old new k s'
      | O =>
          if startswith s old
          then new ++ replace_from old new (Nat.pred (List.length old)) s'
          else c :: replace_from old new 0 s'
      end
  end.

Definition replace (s old new : pystr) : pystr := replace_from old new 0 s.

(** [sys.get_int_max_str_digits()], by default. *)
Definition max_str_digits : Z := 4300.

(** [int(s)].  The model converts the non-empty strings of at most
    [max_str_digits] decimal digits, leading zeros counted, and raises on
    every other string: on a longer string of digits as Python does
    ([ValueError]), and on the few further spellings Python accepts
    (surrounding blanks, a sign, underscores), which the scripts never pass
    to it. *)
Fixpoint int_from (acc : Z) (s : pystr) : option Z :=
  match s with
  | [] => Some acc
  | c :: s' =>
      if isdigit c then int_from (10 * acc + (Z.of_N (code c) - 48)) s'
      else None
  end.

Definition int (s : pystr) : option Z :=
  match s with
  | [] => None
  | _ :: _ =>
      if max_str_digits <? Z.of_nat (List.length s) then None
      else int_from 0 s
  end.

(** [int(x)] where [x] may be Python's [None] ([TypeError]). *)
Definition int_of (x : option pystr) : option Z :=
  match x with
  | Some s => int s
  | None => None
  end.

(** [d.get(key, default)] on a dict written as its item list. *)
Fixpoint dict_get {V : Type} (d : list (pystr * V)) (key : pystr) (default : V) : V :=
  match d with
  | [] => default
  | (k, v) :: d' => if str_eqb k key then v else dict_get d' key default
  end.

(** Comparison of two tuples of ints: the first differing position decides,
    a proper prefix is smaller. *)
Fixpoint tuple_lt (a b : list Z) : bool :=
  match a, b with
  | [], [] => false
  | [], _ :: _ => true
  | _ :: _, [] => false
  | x :: a', y :: b' => if x =? y then tuple_lt a' b' else x <? y
  end.

Definition tuple_gt (a b : list Z) : bool := tuple_lt b a.

End Py.

(** ** The part of [re] the scripts use

    A backtracking matcher in continuation-passing style, with Python's
    priorities: a greedy repetition first tries to take one more character,
    an alternation tries its branches from left to right, an optional part
    is tried before it is skipped.  Capturing groups are recorded on the way
    and dropped again when the matcher backtracks over them. *)

Module Re.

Inductive regex : Type :=
| Chr (p : ascii -> bool)
| Eps
| Cat (r1 r2 : regex)
| Alt (r1 r2 : regex)
| Plus (p : ascii -> bool)
| Star (p : ascii -> bool)
| Opt (r : regex)
| Group (i : nat) (r : regex).

(** A match object: group number to captured text, [None] for a group that
    did not take part. *)
Definition groups : Type := nat -> option pystr.

Definition no_groups : groups := fun _ => None.

Definition set_group (i : nat) (v : pystr) (g : groups) : groups :=
  fun j => if Nat.eqb j i then Some v else g j.

(** The text between the start [s] of a group and the rest [s'] left when it
    closes. *)
Definition consumed (s s' : pystr) : pystr :=
  firstn (List.length s - List.length s') s.

Section Matcher.

Context {A : Type}.

Fixpoint star_go (p : ascii -> bool) (k : pystr -> option A) (s : pystr) : option A :=
  match s with
  | c :: s' => if p c then orelse (star_go p k s') (k s) else k s
  | [] => k s
  end.

Definition plus_go (p : ascii -> bool) (k : pystr -> option A) (s : pystr) : option A :=
  match s with
  | c :: s' => if p c then star_go p k s' else None
  | [] => None
  end.

Fixpoint go (r : regex) (s : pystr) (g : groups)
    (k : pystr -> groups -> option A) : option A :=
  match r with
  | Chr p =>
      match s with
      | c :: s' => if p c then k s' g else None
      | [] => None
      end
  | Eps => k s g
  | Cat r1 r2 => go r1 s g (fun s' g' => go r2 s' g' k)
  | Alt r1 r2 => orelse (go r1 s g k) (go r2 s g k)
  | Plus p => plus_go p (fun s' => k s' g) s
  | Star p => star_go p (fun s' => k s' g) s
  | Opt r1 => orelse (go r1 s g k) (k s g)
  | Group i r1 => go r1 s g (fun s' g' => k s' (set_group i (consumed s s') g'))
  end.

End Matcher.

(** [re.match(r, s)]: anchored at the start, free at the end. *)
Definition re_match (r : regex) (s : pystr) : option groups :=
  go r s no_groups (fun _ g => Some g).

(** [re.fullmatch(r, s)]: the whole string. *)
Definition fullmatch (r : regex) (s : pystr) : option groups :=
  go r s no_groups (fun s' g => match s' with [] => Some g | _ :: _ => None end).

(** Character classes. *)
Definition lit (c : ascii) : ascii -> bool := Py.chr_eqb c.
Definition digit : ascii -> bool := Py.isdigit.
Definition lower : ascii -> bool := Py.islower_az.
(** [.] without [re.DOTALL]: anything but a line feed. *)
Definition dot : ascii -> bool := fun c => negb (Py.chr_eqb "010"%char c).

(** [re.escape(pattern)] (Python 3.7 and later): a backslash before each of
    the characters with a special meaning, every other character kept. *)
Definition special_chars : pystr :=
  str "()[]{}?*+-|^$\.&~# " ++ ["009"; "010"; "013"; "011"; "012"]%char.

Definition is_special (c : ascii) : bool := existsb (Py.chr_eqb c) special_chars.

Definition escape_char (c : ascii) : pystr :=
  if is_special c then ["\"%char; c] else [c].

Definition escape (pattern : pystr) : pystr := flat_map escape_char pattern.

(** Reading a pattern given as a string.  The model reads the patterns that
    are a sequence of one-character atoms, each possibly followed by [*]: an
    atom is a backslash and a character that is no ASCII letter or digit
    (that character itself), a dot, or a character without special meaning.
    On any other pattern it gives [None]; the patterns the scripts build are
    shown to be read. *)
Inductive token : Type :=
| TAtom (p : ascii -> bool)
| TStar.

Definition is_meta (c : ascii) : bool :=
  existsb (Py.chr_eqb c) (str "()[]{}?*+|^$\.").

Fixpoint tokens (esc : bool) (s : pystr) : option (list token) :=
  match s with
  | [] => if esc then None else Some []
  | c :: s' =>
      if esc then
        if Py.isalnum_ascii c then None
        else ts <- tokens false s' ;; Some (TAtom (lit c) :: ts)
      else if Py.chr_eqb c "\" then tokens true s'
      else if Py.chr_eqb c "*" then ts <- tokens false s' ;; Some (TStar :: ts)
      else if Py.chr_eqb c "." then ts <- tokens false s' ;; Some (TAtom dot :: ts)
      else if is_meta c then None
      else ts <- tokens false s' ;; Some (TAtom (lit c) :: ts)
  end.

Fixpoint build (ts : list token) : option regex :=
  match ts with
  | [] => Some Eps
  | TAtom p :: TStar :: ts' => r <- build ts' ;; Some (Cat (Star p) r)
  | TAtom p :: ts' => r <- build ts' ;; Some (Cat (Chr p) r)
  | TStar :: _ => None
  end.

Definition compile (pattern : pystr) : option regex :=
  ts <- tokens false pattern ;; build ts.

(** [re.fullmatch(pattern, s) is not None] *)
Definition fullmatch_str (pattern s : pystr) : option bool :=
  r <- compile pattern ;;
  Some (match fullmatch r s with Some _ => true | None => false end).

End Re.

(** ** [get_python_version.py]: class [PythonManifestParser] *)

Module PythonManifestParser.

(** A manifest entry as the parser reads it: [version] is what
    [entry.get("version")] gives, [None] when the key is missing. *)
Record Entry : Type := {
  version : option pystr;
  stable : bool;
  release_url : pystr
}.


Definition is_alpha (version : pystr) : bool :=
  Py.endswith version "alpha" || Py.contains "-alpha." version
  || Py.contains "-alpha" version.

Definition is_beta (version : pystr) : bool :=
  Py.endswith version "beta" || Py.contains "-beta." version
  || Py.contains "-beta" version.

Definition is_rc (version : pystr) : bool :=
  Py.endswith version "rc" || Py.contains "-rc." version
  || Py.contains "-rc" version.

Definition is_stable (version : pystr) : bool :=
  negb (is_alpha version || is_beta version || is_rc version).

(** The pattern of [parse_version]:
    [(\d+)\.(\d+)\.(\d+)(?:-?([a-z]+)(?:\.|)(\d+))?] *)
Definition version_re : Re.regex :=
  Re.Cat (Re.Group 1 (Re.Plus Re.digit))
 (Re.Cat (Re.Chr (Re.lit "."))
 (Re.Cat (Re.Group 2 (Re.Plus Re.digit))
 (Re.Cat (Re.Chr (Re.lit "."))
 (Re.Cat (Re.Group 3 (Re.Plus Re.digit))
         (Re.Opt
            (Re.Cat (Re.Opt (Re.Chr (Re.lit "-")))
            (Re.Cat (Re.Group 4 (Re.Plus Re.lower))
            (Re.Cat (Re.Alt (Re.Chr (Re.lit ".")) Re.Eps)
                    (Re.Group 5 (Re.Plus Re.digit)))))))))).

Definition VersionKey : Type := (Z * Z * Z * Z * Z)%type.

Definition items (k : VersionKey) : list Z :=
  let '(a, b, c, d, e) := k in [a; b; c; d; e].

Definition pre_order : list (pystr * Z) :=
  [(str "", 0); (str "rc", 1); (str "beta", 2); (str "alpha", 3)].

Definition parse_version (version : pystr) : option VersionKey :=
  match Re.re_match version_re version with
  | None => Some (0, 0, 0, 0, 0)
  | Some m =>
      let pre := match m 4%nat with Some ((_ :: _) as p) => p | _ => str "" end in
      pre_num <- match m 5%nat with
                 | Some ((_ :: _) as n) => Py.int n
                 | _ => Some 0
                 end ;;
      major <- Py.int_of (m 1%nat) ;;
      minor <- Py.int_of (m 2%nat) ;;
      patch <- Py.int_of (m 3%nat) ;;
      Some (major, minor, patch, - Py.dict_get pre_order pre 4, - pre_num)
  end.

Definition version_compare (a b : pystr) : option Z :=
  pa <- parse_version a ;;
  pb <- parse_version b ;;
  Some (Z.b2z (Py.tuple_gt (items pa) (items pb))
        - Z.b2z (Py.tuple_lt (items pa) (items pb))).

(** [re.escape(pattern).replace(r'\*', '.*')] *)
Definition glob_regex (pattern : pystr) : pystr :=
  Py.replace (Re.escape pattern) "\*" ".*".

Definition version_matches_filter (version pattern : pystr) : option bool :=
  Re.fullmatch_str (glob_regex pattern) version.

(** The [release_types] argument: omitted ([None]), one string, or a list. *)
Inductive release_types_arg : Type :=
| RtNone
| RtStr (s : pystr)
| RtList (l : list pystr).

Inductive release_class : Type := Alpha | Beta | Rc | Stable.

(** The [if]/[elif] chain of the loop of [filter_versions]: the branch that
    fires for a version string, if any.  Every branch appends the version. *)
Definition release_branch (include_alpha include_beta include_rc include_stable : bool)
    (version : pystr) : option release_class :=
  if include_alpha && is_alpha version then Some Alpha
  else if include_beta && is_beta version then Some Beta
  else if include_rc && is_rc version then Some Rc
  else if include_stable && is_stable version then Some Stable
  else None.

(** The chain with every release type requested. *)
Definition classify (version : pystr) : release_class :=
  if is_alpha version then Alpha
  else if is_beta version then Beta
  else if is_rc version then Rc
  else Stable.

Definition loop_body (include_alpha include_beta include_rc include_stable : bool)
    (versions : list pystr) (entry : Entry) : list pystr :=
  match version entry with
  | None | Some [] => versions
  | Some v =>
      match release_branch include_alpha include_beta include_rc include_stable v with
      | Some _ => versions ++ [v]
      | None => versions
      end
  end.

(** [[v for v in versions if f(v)]] where [f] may raise. *)
Fixpoint comprehension (f : pystr -> option bool) (versions : list pystr) : option (list pystr) :=
  match versions with
  | [] => Some []
  | v :: vs =>
      b <- f v ;;
      rest <- comprehension f vs ;;
      Some (if b then v :: rest else rest)
  end.

Definition filter_versions (manifest : list Entry) (release_types : release_types_arg)
    (version_filter : option pystr) : option (list pystr) :=
  let release_types :=
    match release_types with
    | RtNone => [str "stable"]
    | RtStr s => [s]
    | RtList l => l
    end in
  let include_alpha := Py.mem "alpha" release_types in
  let include_beta := Py.mem "beta" release_types in
  let include_rc := Py.mem "rc" release_types in
  let include_stable := Py.mem "stable" release_types in
  let versions :=
    fold_left (loop_body include_alpha include_beta include_rc include_stable)
      manifest [] in
  match version_filter with
  | Some ((_ :: _) as pattern) =>
      comprehension (fun v => version_matches_filter v pattern) versions
  | _ => Some versions
  end.

(** The manifest of the test fixture [sample_manifest]. *)
Definition sample_manifest : list Entry :=
  [ {| version := Some (str "3.13.0"); stable := true;
       release_url := "https://github.com/actions/python-versions/releases/tag/3.13.0-1234" |};
    {| version := Some (str "3.12.5"); stable := true;
       release_url := "https://github.com/actions/python-versions/releases/tag/3.12.5-1234" |};
    {| version := Some (str "3.11.0-rc.1"); stable := false;
       release_url := "https://github.com/actions/python-versions/releases/tag/3.11.0-rc.1" |};
    {| version := Some (str "3.10.0-beta.2"); stable := false;
       release_url := "https://github.com/actions/python-versions/releases/tag/3.10.0-beta.2" |};
    {| version := Some (str "3.9.0-alpha.1"); stable := false;
       release_url := "https://github.com/actions/python-versions/releases/tag/3.9.0-alpha.1" |};
    {| version := Some (str "3.8.10"); stable := true;
       release_url := "https://github.com/actions/python-versions/releases/tag/3.8.10-1234" |} ].

End PythonManifestParser.

(** ** [generate_partial_manifest.py] *)

Module PartialManifest.

Definition PREFIXES : list pystr := [str "python-"; str "trivy-python-"].

Definition SUFFIXES : list pystr :=
  [str ".tar.gz"; str ".sbom.json"; str ".json"; str ".log"].

Definition falsy (s : pystr) : bool :=
  match s with
  | [] => true
  | _ :: _ => false
  end.

Definition releases_base (owner repo : pystr) : pystr :=
  str "https://github.com/" ++ owner ++ str "/" ++ repo ++ str "/releases/download/".

Definition validate_download_url (url owner repo tag filename : pystr) : bool :=
  if falsy url || falsy (Py.strip url) then false
  else if negb (Py.startswith url "https://github.com/") then false
  else
    let expected_base := releases_base owner repo in
    if negb (Py.startswith url expected_base) then false
    else true.

Fixpoint strip_prefix (prefixes : list pystr) (cleaned : pystr) : pystr :=
  match prefixes with
  | [] => cleaned
  | prefix :: rest =>
      if Py.startswith cleaned prefix then skipn (List.length prefix) cleaned
      else strip_prefix rest cleaned
  end.

Fixpoint strip_suffix (suffixes : list pystr) (cleaned : pystr) : pystr :=
  match suffixes with
  | [] => cleaned
  | suffix :: rest =>
      if Py.endswith cleaned suffix
      then firstn (List.length cleaned - List.length suffix) cleaned
      else strip_suffix rest cleaned
  end.

Definition strip_known_wrappers (filename : pystr) : pystr :=
  strip_suffix SUFFIXES (strip_prefix PREFIXES filename).

(** What the loops of [strip_known_wrappers] are to find: [x] is the first
    element of [known], in its order, that passes [test], or the empty
    string when no element passes. *)
Definition first_match (test : pystr -> bool) (known : list pystr) (x : pystr)
    : Prop :=
  (exists before after,
      known = before ++ x :: after
      /\ test x = true
      /\ forall q, In q before -> test q = false)
  \/ (x = [] /\ forall q, In q known -> test q = false).

Record Parsed : Type := {
  p_version : pystr;
  p_platform : pystr;
  p_platform_version : pystr;
  p_arch : pystr
}.

Definition parse_filename (filename : pystr) : option Parsed :=
  let stripped := strip_known_wrappers filename in
  let parts := Py.split "-" stripped in
  if (List.length parts <? 4)%nat then None
  else Some {| p_version := nth 0 parts [];
               p_platform := nth 1 parts [];
               p_platform_version := nth 2 parts [];
               p_arch := nth 3 parts [] |}.

Definition should_skip (name : pystr) : bool :=
  negb (Py.endswith name ".tar.gz") || Py.contains "trivy" name.

(** A release asset: [name] and [browser_download_url], each the empty
    string when the key is missing. *)
Record Asset : Type := {
  name : pystr;
  browser_download_url : pystr
}.

Record ManifestPart : Type := {
  mp_version : pystr;
  mp_filename : pystr;
  mp_arch : pystr;
  mp_platform : pystr;
  mp_platform_version : pystr;
  mp_download_url : pystr
}.

Definition final_url (owner repo tag name : pystr) : pystr :=
  releases_base owner repo ++ tag ++ str "/" ++ name.

Definition build_step (tag owner repo : pystr)
    (acc : list ManifestPart * list pystr) (asset : Asset)
    : list ManifestPart * list pystr :=
  let '(entries, errors) := acc in
  let name := name asset in
  if should_skip name then (entries, errors)
  else
    match parse_filename name with
    | None =>
        (entries,
         errors ++ [str "Filename parsing failed for asset '" ++ name ++ str "'"])
    | Some parsed =>
        let download_url := browser_download_url asset in
        if negb (validate_download_url download_url owner repo tag name) then
          (entries,
           errors ++ [str "Invalid download_url for '" ++ name ++ str "': expected '"
                      ++ final_url owner repo tag name ++ str "', got '"
                      ++ download_url ++ str "'"])
        else
          (entries ++ [{| mp_version := tag;
                          mp_filename := name;
                          mp_arch := p_arch parsed;
                          mp_platform := p_platform parsed;
                          mp_platform_version := p_platform_version parsed;
                          mp_download_url := final_url owner repo tag name |}],
           errors)
    end.

Definition build_manifest_entries (tag : pystr) (assets : list Asset)
    (owner repo : pystr) : list ManifestPart * list pystr :=
  fold_left (build_step tag owner repo) assets ([], []).

End PartialManifest.

(** ** The written forms of three-stage version strings

    What the specification calls a three-stage version string:
    [MAJOR.MINOR.PATCH] for a stable release, and for a pre-release the same
    followed by a stage name, with or without a hyphen before it, and then
    either nothing (a bare stage) or a sub-ordinal, with or without a dot
    before it. *)

Module Versions.

Inductive stage : Type := SAlpha | SBeta | SRc.

Definition stage_name (st : stage) : pystr :=
  match st with
  | SAlpha => str "alpha"
  | SBeta => str "beta"
  | SRc => str "rc"
  end.

(** The position of a stage in [pre_order]. *)
Definition stage_rank (st : stage) : Z :=
  Py.dict_get PythonManifestParser.pre_order (stage_name st) 4.

(** A non-empty string of decimal digits. *)
Definition numeral (s : pystr) : bool :=
  match s with
  | [] => false
  | _ :: _ => forallb Py.isdigit s
  end.

Definition core (M m p : pystr) : pystr := M ++ str "." ++ m ++ str "." ++ p.

Definition opt_chr (present : bool) (c : ascii) : pystr :=
  if present then [c] else [].

Definition bare (M m p : pystr) (hyphen : bool) (st : stage) : pystr :=
  core M m p ++ opt_chr hyphen "-" ++ stage_name st.

Definition prerelease (M m p : pystr) (hyphen : bool) (st : stage)
    (dot : bool) (n : pystr) : pystr :=
  bare M m p hyphen st ++ opt_chr dot "." ++ n.

(** The order of the stages the specification gives: rc above beta above
    alpha. *)
Definition later_stage (s1 s2 : stage) : bool :=
  match s1, s2 with
  | SRc, SBeta | SRc, SAlpha | SBeta, SAlpha => true
  | _, _ => false
  end.

(** A release, as a version string denotes it: the three numbers and, for a
    pre-release, the stage and the sub-ordinal if one is written. *)
Record release : Type := {
  r_major : Z;
  r_minor : Z;
  r_patch : Z;
  r_pre : option (stage * option Z)
}.

Inductive spells : release -> pystr -> Prop :=
| spells_stable (M m p : pystr) (a b c : Z) :
    Py.int M = Some a -> Py.int m = Some b -> Py.int p = Some c ->
    spells {| r_major := a; r_minor := b; r_patch := c; r_pre := None |}
           (core M m p)
| spells_bare (M m p : pystr) (a b c : Z) (hyphen : bool) (st : stage) :
    Py.int M = Some a -> Py.int m = Some b -> Py.int p = Some c ->
    spells {| r_major := a; r_minor := b; r_patch := c;
              r_pre := Some (st, None) |}
           (bare M m p hyphen st)
| spells_numbered (M m p n : pystr) (a b c k : Z) (hyphen dot : bool) (st : stage) :
    Py.int M = Some a -> Py.int m = Some b -> Py.int p = Some c ->
    Py.int n = Some k ->
    spells {| r_major := a; r_minor := b; r_patch := c;
              r_pre := Some (st, Some k) |}
           (prerelease M m p hyphen st dot n).

(** The key the parser gives the spellings of a release. *)
Definition release_key (r : release) : PythonManifestParser.VersionKey :=
  match r_pre r with
  | Some (st, Some k) => (r_major r, r_minor r, r_patch r, - stage_rank st, - k)
  | _ => (r_major r, r_minor r, r_patch r, 0, 0)
  end.

(** A release written without a bare stage. *)
Definition numbered (r : release) : bool :=
  match r_pre r with
  | Some (_, None) => false
  | _ => true
  end.

(** An input with the shape the pattern of [parse_version] looks for at its
    start. *)
Definition version_shaped (s : pystr) : Prop :=
  exists M m p rest,
    numeral M = true /\ numeral m = true /\ numeral p = true
    /\ s = core M m p ++ rest.

(** What a glob pattern matches: [*] stands for any run of characters
    without a line feed, any other character for itself. *)
Inductive glob_matches : pystr -> pystr -> Prop :=
| glob_nil : glob_matches [] []
| glob_chr (c : ascii) (p v : pystr) :
    c <> "*"%char -> glob_matches p v -> glob_matches (c :: p) (c :: v)
| glob_star (p w v : pystr) :
    Forall (fun c => c <> "010"%char) w -> glob_matches p v ->
    glob_matches ("*"%char :: p) (w ++ v).

(** One character of a glob pattern, as a piece of the regular expression. *)
Definition glob_char (c : ascii) : pystr :=
  if Py.chr_eqb c "*" then str ".*" else Re.escape_char c.

(** The tokens and the regular expression [re.compile] reads from the
    pieces [glob_char] gives. *)
Definition glob_tokens (c : ascii) : list Re.token :=
  if Py.chr_eqb c "*" then [Re.TAtom Re.dot; Re.TStar]
  else [Re.TAtom (Re.lit c)].

Fixpoint glob_re (pattern : pystr) : Re.regex :=
  match pattern with
  | [] => Re.Eps
  | c :: rest =>
      if Py.chr_eqb c "*" then Re.Cat (Re.Star Re.dot) (glob_re rest)
      else Re.Cat (Re.Chr (Re.lit c)) (glob_re rest)
  end.

End Versions.

(** ** A direct scanner for the version pattern

    The longest-run reading of [version_re], without backtracking; it is
    shown below to give the groups of [re.match] on every input. *)

Module Scan.

Fixpoint span (p : ascii -> bool) (s : pystr) : pystr * pystr :=
  match s with
  | c :: s' =>
      if p c then let '(a, b) := span p s' in (c :: a, b) else ([], s)
  | [] => ([], [])
  end.

Definition skip_chr (c : ascii) (s : pystr) : pystr :=
  match s with
  | d :: s' => if Py.chr_eqb c d then s' else s
  | [] => []
  end.

(** The optional part: stage letters and sub-ordinal digits. *)
Definition scan_pre (rest : pystr) : option (pystr * pystr) :=
  let '(letters, r) := span Re.lower (skip_chr "-" rest) in
  match letters with
  | [] => None
  | _ :: _ =>
      let '(num, _) := span Re.digit (skip_chr "." r) in
      match num with
      | [] => None
      | _ :: _ => Some (letters, num)
      end
  end.

Definition scan_version (s : pystr)
    : option (pystr * pystr * pystr * option (pystr * pystr)) :=
  let '(M, r1) := span Re.digit s in
  match M, r1 with
  | _ :: _, d1 :: r2 =>
      if Py.chr_eqb "." d1 then
        let '(m, r3) := span Re.digit r2 in
        match m, r3 with
        | _ :: _, d2 :: r4 =>
            if Py.chr_eqb "." d2 then
              let '(p, r5) := span Re.digit r4 in
              match p with
              | _ :: _ => Some (M, m, p, scan_pre r5)
              | [] => None
              end
            else None
        | _, _ => None
        end
      else None
  | _, _ => None
  end.

(** The match object of [version_re] for scanned groups. *)
Definition groups_of (x : pystr * pystr * pystr * option (pystr * pystr)) : Re.groups :=
  let '(M, m, p, pre) := x in
  let g3 := Re.set_group 3 p (Re.set_group 2 m (Re.set_group 1 M Re.no_groups)) in
  match pre with
  | Some (letters, num) => Re.set_group 5 num (Re.set_group 4 letters g3)
  | None => g3
  end.

(** What [parse_version] computes from the scanned groups. *)
Definition key_of (x : pystr * pystr * pystr * option (pystr * pystr))
    : option PythonManifestParser.VersionKey :=
  let '(M, m, p, pre) := x in
  pre_num <- match pre with
             | Some (_, (_ :: _) as n) => Py.int n
             | _ => Some 0
             end ;;
  major <- Py.int M ;;
  minor <- Py.int m ;;
  patch <- Py.int p ;;
  Some (major, minor, patch,
        - Py.dict_get PythonManifestParser.pre_order
            match pre with Some ((_ :: _) as l, _) => l | _ => str "" end 4,
        - pre_num).

(** A numeral one digit beyond the limit of [int]. *)
Definition long_numeral : pystr := repeat "1"%char 4301.

End Scan.

(** ** [get_python_version.py]: listing and the latest version *)

Module Listing.

Import PythonManifestParser.

(** A non-empty lower-case word, as the pattern of [parse_version] takes in
    the place of the stage. *)
Definition word (w : pystr) : bool :=
  match w with
  | [] => false
  | _ :: _ => forallb Re.lower w
  end.

(** [versions.sort(key=cmp_to_key(cmp), reverse=True)].  Python's sort is
    stable, also with [reverse=True]: the result is in descending order and
    elements that compare equal keep the order they had.  The model is the
    insertion sort with that contract.  An element goes before the first
    one it is not smaller than.  [cmp] may raise, and then the sort raises:
    Python's sort makes no comparison on a list of fewer than two elements
    and compares every element of a longer list at least once, and so does
    the model. *)
Fixpoint insert_desc (cmp : pystr -> pystr -> option Z) (x : pystr)
    (sorted : list pystr) : option (list pystr) :=
  match sorted with
  | [] => Some [x]
  | y :: rest =>
      c <- cmp x y ;;
      if 0 <=? c then Some (x :: sorted)
      else r <- insert_desc cmp x rest ;; Some (y :: r)
  end.

Fixpoint sort_desc (cmp : pystr -> pystr -> option Z) (l : list pystr)
    : option (list pystr) :=
  match l with
  | [] => Some []
  | x :: rest => s <- sort_desc cmp rest ;; insert_desc cmp x s
  end.

Definition list_versions (manifest : list Entry) (release_types : release_types_arg)
    (version_filter : option pystr) : option (list pystr) :=
  versions <- filter_versions manifest release_types version_filter ;;
  sort_desc version_compare versions.

(** The result is [Some None] for Python's [None], [Some (Some v)] for a
    version. *)
Definition get_latest_version (manifest : list Entry) (release_types : release_types_arg)
    (version_filter : option pystr) : option (option pystr) :=
  versions <- filter_versions manifest release_types version_filter ;;
  match versions with
  | [] => Some None
  | _ :: _ =>
      sorted <- sort_desc version_compare versions ;;
      match sorted with
      | v :: _ => Some (Some v)
      | [] => None
      end
  end.

(** What [json.load] hands to [main]: a list, whose elements are entries
    as the parser reads them (objects whose version is a string, null or
    missing), or a value of another type, of which the constructor reads the
    truth value only. *)
Inductive loaded : Type :=
| NotList (truthy : bool)
| IsList (entries : list Entry).

Definition truth (manifest : loaded) : bool :=
  match manifest with
  | NotList truthy => truthy
  | IsList [] => false
  | IsList (_ :: _) => true
  end.

Definition isinstance_list (manifest : loaded) : bool :=
  match manifest with
  | NotList _ => false
  | IsList _ => true
  end.

(** [PythonManifestParser(manifest)] on what was loaded:
    [if not manifest or not isinstance(manifest, list): raise ValueError]. *)
Definition construct (manifest : loaded) : option (list Entry) :=
  if negb (truth manifest) || negb (isinstance_list manifest) then None
  else
    match manifest with
    | NotList _ => None
    | IsList entries => Some entries
    end.

(** How a run of [main] ends. *)
Inductive outcome : Type :=
| Exit (printed : list pystr) (status : Z)
| Uncaught.

(** [main], from the point where the manifest has been downloaded and read:
    the versions printed on standard output, one per line, and the exit
    status.  The help text of the call without a mode and the messages on
    standard error are left out.  [--release-types] always arrives as a
    list.  The constructor is called inside [try], [list_versions] and
    [get_latest_version] are not: what they raise leaves [main], and they
    are called before anything is printed. *)
Definition main_run (list_flag latest_flag : bool) (release_types : list pystr)
    (version_filter : option pystr) (manifest : loaded) : outcome :=
  if negb (list_flag || latest_flag) then Exit [] 0
  else
    match construct manifest with
    | None => Exit [] 1
    | Some parser_obj =>
        if list_flag then
          match list_versions parser_obj (RtList release_types) version_filter with
          | Some vs => Exit vs 0
          | None => Uncaught
          end
        else
          match get_latest_version parser_obj (RtList release_types)
                  version_filter with
          | Some (Some ((_ :: _) as v)) => Exit [v] 0
          | Some _ => Exit [] 1
          | None => Uncaught
          end
    end.

(** The standard output and the exit status of the process: an exception
    that leaves [main] ends the interpreter with status 1, after a traceback
    on standard error. *)
Definition process (o : outcome) : list pystr * Z :=
  match o with
  | Exit printed status => (printed, status)
  | Uncaught => ([], 1)
  end.

(** Some version of the list has no key: [parse_version] raises on it. *)
Definition some_unparsed (versions : list pystr) : Prop :=
  exists v, In v versions /\ parse_version v = None.

(** The sort raises: it compares, and so parses, every element of a list of
    two or more. *)
Definition sort_raises (versions : list pystr) : Prop :=
  (2 <= List.length versions)%nat /\ some_unparsed versions.

(** [a] compares greater than or equal to [b]. *)
Definition geb (a b : pystr) : bool :=
  match version_compare a b with
  | Some c => 0 <=? c
  | None => false
  end.

(** [a] and [b] compare equal. *)
Definition same_key (a b : pystr) : bool :=
  match version_compare a b with
  | Some c => c =? 0
  | None => false
  end.

(** The sort with a comparison that does not raise. *)
Fixpoint insert_by (ge : pystr -> pystr -> bool) (x : pystr) (sorted : list pystr)
    : list pystr :=
  match sorted with
  | [] => [x]
  | y :: rest => if ge x y then x :: sorted else y :: insert_by ge x rest
  end.

Fixpoint sort_by (ge : pystr -> pystr -> bool) (l : list pystr) : list pystr :=
  match l with
  | [] => []
  | x :: rest => insert_by ge x (sort_by ge rest)
  end.

(** The version strings [filter_versions] looks at: the non-empty ones, in
    manifest order. *)
Definition present_versions (manifest : list Entry) : list pystr :=
  flat_map (fun e => match version e with
                     | Some ((_ :: _) as v) => [v]
                     | _ => []
                     end) manifest.

Definition as_list (release_types : release_types_arg) : list pystr :=
  match release_types with
  | RtNone => [str "stable"]
  | RtStr s => [s]
  | RtList l => l
  end.

(** Some requested release type has its cue in [v]. *)
Definition wanted (release_types : list pystr) (v : pystr) : bool :=
  (Py.mem "alpha" release_types && is_alpha v)
  || (Py.mem "beta" release_types && is_beta v)
  || (Py.mem "rc" release_types && is_rc v)
  || (Py.mem "stable" release_types && is_stable v).

(** The glob test as [filter_versions] applies it: none for a missing or
    empty pattern. *)
Definition glob_ok (version_filter : option pystr) (v : pystr) : bool :=
  match version_filter with
  | Some ((_ :: _) as pattern) =>
      match version_matches_filter v pattern with
      | Some b => b
      | None => false
      end
  | _ => true
  end.

End Listing.

(** ** [generate_partial_manifest.py]: [main] *)

Module PartialMain.

Import PartialManifest.

(** [main], from the point where the assets have been read: the exit status
    and the manifest entries written to standard output, if any. *)
Definition main_emit (tag owner repo : pystr) (assets : list Asset)
    : Z * option (list ManifestPart) :=
  let '(manifest_entries, errors) := build_manifest_entries tag assets owner repo in
  match errors, manifest_entries with
  | _ :: _, [] => (1, None)
  | _, _ => (0, Some manifest_entries)
  end.

(** What [build_manifest_entries] decides for one asset. *)
Inductive verdict : Type := Skipped | Unparsed | BadUrl | Kept.

Definition judge (owner repo tag : pystr) (asset : Asset) : verdict :=
  if should_skip (name asset) then Skipped
  else
    match parse_filename (name asset) with
    | None => Unparsed
    | Some _ =>
        if validate_download_url (browser_download_url asset) owner repo tag
             (name asset)
        then Kept else BadUrl
    end.

Definition is_kept (owner repo tag : pystr) (asset : Asset) : bool :=
  match judge owner repo tag asset with
  | Kept => true
  | _ => false
  end.

Definition is_failed (owner repo tag : pystr) (asset : Asset) : bool :=
  match judge owner repo tag asset with
  | Unparsed | BadUrl => true
  | _ => false
  end.

(** What one asset adds to the entries and to the errors. *)
Definition step_entries (tag owner repo : pystr) (asset : Asset) : list ManifestPart :=
  fst (build_step tag owner repo ([], []) asset).

Definition step_errors (tag owner repo : pystr) (asset : Asset) : list pystr :=
  snd (build_step tag owner repo ([], []) asset).

(** An asset name in the layout the build publishes. *)
Definition asset_name (prefix : pystr) (fields : list pystr) : pystr :=
  prefix ++ Py.join (str "-") fields ++ str ".tar.gz".

End PartialMain.

(** ** [apply_partial_manifests.py] *)

Module ApplyPartials.

(** An entry of a partial manifest: a JSON object with string values, as
    [generate_partial_manifest.py] writes them, given by its items. *)
Definition dict : Type := list (pystr * pystr).

Definition REQUIRED_FIELDS : list pystr :=
  [str "version"; str "filename"; str "arch"; str "platform"; str "download_url"].

Definition keys (d : dict) : list pystr := map fst d.

(** [d[key]], [KeyError] when the key is missing. *)
Fixpoint getitem (d : dict) (key : pystr) : option pystr :=
  match d with
  | [] => None
  | (k, v) :: d' => if Py.str_eqb k key then Some v else getitem d' key
  end.

(** [REQUIRED_FIELDS.issubset(entry.keys())] *)
Definition valid_entry (entry : dict) : bool :=
  forallb (fun k => Py.mem k (keys entry)) REQUIRED_FIELDS.

(** One call of [update_version], by its keyword arguments; [existing_file]
    is given by the file name under the manifest directory. *)
Record UpdateCall : Type := {
  u_file_name : pystr;
  u_version : pystr;
  u_filename : pystr;
  u_arch : pystr;
  u_platform : pystr;
  u_download_url : pystr;
  u_platform_version : option pystr;
  u_stable : bool
}.

(** [apply_entries], with [ensure_manifest_file] and [update_version] (of the
    module [manifest_tools]) taken to return: the calls of [update_version]
    in order and the number returned.  The path of the partial file, which
    is only printed, is left out of the entries. *)
Fixpoint apply_loop (entries : list dict) (calls : list UpdateCall) (applied : Z)
    : option (list UpdateCall * Z) :=
  match entries with
  | [] => Some (calls, applied)
  | entry :: rest =>
      if negb (valid_entry entry) then apply_loop rest calls applied
      else
        version <- getitem entry "version" ;;
        arch <- getitem entry "arch" ;;
        filename <- getitem entry "filename" ;;
        platform <- getitem entry "platform" ;;
        download_url <- getitem entry "download_url" ;;
        apply_loop rest
          (calls ++ [{| u_file_name := version ++ str "-" ++ arch ++ str ".json";
                        u_version := version;
                        u_filename := filename;
                        u_arch := arch;
                        u_platform := platform;
                        u_download_url := download_url;
                        u_platform_version := getitem entry "platform_version";
                        u_stable := true |}])
          (applied + 1)
  end.

Definition apply_entries (entries : list dict) : option (list UpdateCall * Z) :=
  apply_loop entries [] 0.

(** The dict [build_manifest_entries] appends for a kept asset. *)
Definition as_dict (e : PartialManifest.ManifestPart) : dict :=
  [ (str "version", PartialManifest.mp_version e);
    (str "filename", PartialManifest.mp_filename e);
    (str "arch", PartialManifest.mp_arch e);
    (str "platform", PartialManifest.mp_platform e);
    (str "platform_version", PartialManifest.mp_platform_version e);
    (str "download_url", PartialManifest.mp_download_url e) ].

End ApplyPartials.

(** * Properties *)

(** ** Facts about the built-ins *)

Module PyFacts.

Import Py.

Lemma chr_eqb_eq (c d : ascii) : chr_eqb c d = true <-> c = d.
Proof. apply Ascii.eqb_eq. Qed.

Lemma chr_eqb_refl (c : ascii) : chr_eqb c c = true.
Proof. apply Ascii.eqb_refl. Qed.

Lemma chr_eqb_neq (c d : ascii) : chr_eqb c d = false <-> c <> d.
Proof. apply Ascii.eqb_neq. Qed.

Lemma str_eqb_eq (a b : pystr) : str_eqb a b = true <-> a = b.
Proof.
  unfold str_eqb. destruct (list_eq_dec ascii_dec a b); split; congruence.
Qed.

Lemma startswith_iff (s p : pystr) :
  startswith s p = true <-> exists r, s = p ++ r.
Proof.
  revert s. induction p as [|c p IH]; intros s; simpl.
  - split; [intros _; now exists s | reflexivity].
  - destruct s as [|d s].
    + split; [discriminate | intros [r Hr]; discriminate].
    + rewrite andb_true_iff, chr_eqb_eq, IH. split.
      * intros [-> [r ->]]. now exists r.
      * intros [r Hr]. injection Hr as -> ->. split; [reflexivity | now exists r].
Qed.

Lemma startswith_app (p r : pystr) : startswith (p ++ r) p = true.
Proof. apply startswith_iff. now exists r. Qed.

Lemma startswith_false (s p : pystr) :
  (forall r, s <> p ++ r) -> startswith s p = false.
Proof.
  intros H. destruct (startswith s p) eqn:E; [|reflexivity].
  apply startswith_iff in E. destruct E as [r Hr]. now elim (H r).
Qed.

Lemma endswith_iff (s p : pystr) :
  endswith s p = true <-> exists a, s = a ++ p.
Proof.
  unfold endswith. rewrite startswith_iff. split.
  - intros [r Hr]. exists (rev r).
    rewrite <- (rev_involutive s), Hr, rev_app_distr, rev_involutive.
    reflexivity.
  - intros [a ->]. exists (rev a). apply rev_app_distr.
Qed.

Lemma endswith_app (a p : pystr) : endswith (a ++ p) p = true.
Proof. apply endswith_iff. now exists a. Qed.

Lemma contains_iff (p s : pystr) :
  contains p s = true <-> exists a b, s = a ++ p ++ b.
Proof.
  induction s as [|d s IH].
  - simpl. rewrite orb_false_r, startswith_iff. split.
    + intros [r Hr]. now exists [], r.
    + intros [a [b H]]. destruct a as [|x a]; [now exists b | discriminate].
  - cbn [contains]. rewrite orb_true_iff, startswith_iff, IH. split.
    + intros [[r Hr] | [a [b H]]].
      * now exists [], r.
      * exists (d :: a), b. now rewrite H.
    + intros [a [b H]]. destruct a as [|x a].
      * left. now exists b.
      * right. injection H as _ H. now exists a, b.
Qed.

(** A string in which the first character of [p] does not occur does not
    contain [p]. *)
Lemma contains_absent (c : ascii) (p s : pystr) :
  ~ In c s -> contains (c :: p) s = false.
Proof.
  intros H. destruct (contains (c :: p) s) eqn:E; [|reflexivity].
  apply contains_iff in E. destruct E as [a [b ->]].
  elim H. apply in_or_app. right. now left.
Qed.

Lemma endswith_last (s p : pystr) (c d : ascii) :
  c <> d -> endswith (s ++ [c]) (p ++ [d]) = false.
Proof.
  intros H. unfold endswith. rewrite !rev_app_distr. simpl.
  destruct (chr_eqb d c) eqn:E; [|reflexivity].
  apply chr_eqb_eq in E. congruence.
Qed.

Lemma int_from_digits (s : pystr) (acc : Z) :
  forallb isdigit s = true -> 0 <= acc ->
  exists k, int_from acc s = Some k /\ 0 <= k.
Proof.
  revert acc. induction s as [|c s IH]; intros acc Hs Hacc;
    cbn [int_from forallb] in *.
  - now exists acc.
  - apply andb_true_iff in Hs. destruct Hs as [Hc Hs]. rewrite Hc.
    apply IH; [assumption|].
    unfold isdigit in Hc. apply andb_true_iff in Hc. destruct Hc as [Hc _].
    apply N.leb_le in Hc. lia.
Qed.

Lemma int_from_some (s : pystr) (acc k : Z) :
  int_from acc s = Some k -> forallb isdigit s = true.
Proof.
  revert acc. induction s as [|c s IH]; intros acc H;
    cbn [int_from forallb] in *.
  - reflexivity.
  - destruct (isdigit c); [|discriminate]. simpl. now apply IH in H.
Qed.

Lemma int_from_nonneg (s : pystr) (acc k : Z) :
  int_from acc s = Some k -> 0 <= acc -> 0 <= k.
Proof.
  intros H Hacc. pose proof (int_from_some _ _ _ H) as Hd.
  destruct (int_from_digits s acc Hd Hacc) as [k' [E Hk]]. congruence.
Qed.

End PyFacts.

(** ** The matcher on the version pattern *)

Module ReFacts.

Import Re Scan.

Lemma orelse_none_r {A : Type} (a : option A) : orelse a None = a.
Proof. now destruct a. Qed.

Lemma span_app (p : ascii -> bool) (s a b : pystr) :
  span p s = (a, b) -> s = a ++ b.
Proof.
  revert a b. induction s as [|c s IH]; intros a b H; simpl in H.
  - now injection H as <- <-.
  - destruct (p c).
    + destruct (span p s) as [a' b'] eqn:E. injection H as <- <-.
      simpl. f_equal. now apply IH.
    + now injection H as <- <-.
Qed.

Lemma span_all (p : ascii -> bool) (s a b : pystr) :
  span p s = (a, b) -> forallb p a = true.
Proof.
  revert a b. induction s as [|c s IH]; intros a b H; simpl in H.
  - now injection H as <- <-.
  - destruct (p c) eqn:Hc.
    + destruct (span p s) as [a' b'] eqn:E. injection H as <- <-.
      simpl. rewrite Hc. now apply (IH a' b').
    + now injection H as <- <-.
Qed.

Lemma span_stop (p : ascii -> bool) (s a b : pystr) (c : ascii) :
  span p s = (a, c :: b) -> p c = false.
Proof.
  revert a. induction s as [|d s IH]; intros a H; simpl in H.
  - discriminate.
  - destruct (p d) eqn:Hd.
    + destruct (span p s) as [a' b'] eqn:E. injection H as <- ->.
      now apply (IH a').
    + injection H as <- -> ->. assumption.
Qed.

(** A run followed by something outside the class is spanned whole. *)
Lemma span_run (p : ascii -> bool) (a b : pystr) :
  forallb p a = true ->
  match b with [] => True | c :: _ => p c = false end ->
  span p (a ++ b) = (a, b).
Proof.
  intros Ha Hb. induction a as [|c a IH]; simpl in *.
  - destruct b as [|c b]; simpl; [reflexivity | now rewrite Hb].
  - apply andb_true_iff in Ha. destruct Ha as [Hc Ha].
    rewrite Hc, (IH Ha). reflexivity.
Qed.

Lemma consumed_app (a b : pystr) : consumed (a ++ b) b = a.
Proof.
  unfold consumed. rewrite length_app.
  replace (List.length a + List.length b - List.length b)%nat
    with (List.length a + 0)%nat by lia.
  rewrite firstn_app_2. simpl. apply app_nil_r.
Qed.

Lemma consumed_span (p : ascii -> bool) (s a b : pystr) :
  span p s = (a, b) -> consumed s b = a.
Proof. intros H. rewrite (span_app _ _ _ _ H). apply consumed_app. Qed.

Section Greedy.

Context {A : Type} (p : ascii -> bool) (k : pystr -> option A).

(** The continuation refuses to start on a character of the class: only the
    longest run can succeed. *)
Lemma star_go_refuse (s : pystr) :
  (forall c r, p c = true -> k (c :: r) = None) ->
  star_go p k s = k (snd (span p s)).
Proof.
  intros H. induction s as [|c s IH]; simpl.
  - reflexivity.
  - destruct (p c) eqn:Hc.
    + rewrite (H c s Hc), orelse_none_r, IH.
      now destruct (span p s).
    + reflexivity.
Qed.

(** The continuation accepts what the longest run leaves: the longest run is
    the one tried first. *)
Lemma star_go_accept (s : pystr) :
  k (snd (span p s)) <> None ->
  star_go p k s = k (snd (span p s)).
Proof.
  induction s as [|c s IH]; simpl.
  - reflexivity.
  - destruct (p c) eqn:Hc.
    + destruct (span p s) as [a b] eqn:E. simpl in *. intros H.
      rewrite (IH H). destruct (k b); [reflexivity | now elim H].
    + reflexivity.
Qed.

Lemma plus_go_refuse (s : pystr) :
  (forall c r, p c = true -> k (c :: r) = None) ->
  plus_go p k s =
  match fst (span p s) with
  | [] => None
  | _ :: _ => k (snd (span p s))
  end.
Proof.
  intros H. destruct s as [|c s]; simpl.
  - reflexivity.
  - destruct (p c) eqn:Hc.
    + rewrite (star_go_refuse s H). now destruct (span p s).
    + reflexivity.
Qed.

Lemma plus_go_accept (s : pystr) :
  (forall r, k r <> None) ->
  plus_go p k s =
  match fst (span p s) with
  | [] => None
  | _ :: _ => k (snd (span p s))
  end.
Proof.
  intros H. destruct s as [|c s]; simpl.
  - reflexivity.
  - destruct (p c) eqn:Hc.
    + rewrite (star_go_accept s (H _)). now destruct (span p s).
    + reflexivity.
Qed.

End Greedy.

Lemma digit_not_dot (c : ascii) : digit c = true -> lit "." c = false.
Proof.
  intros H. destruct (lit "." c) eqn:E; [|reflexivity].
  apply PyFacts.chr_eqb_eq in E. subst c. discriminate H.
Qed.

Lemma lower_not_digit (c : ascii) : lower c = true -> digit c = false.
Proof.
  unfold lower, digit, Py.islower_az, Py.isdigit. intros H.
  apply andb_true_iff in H. destruct H as [H _]. apply N.leb_le in H.
  apply andb_false_iff. right. apply N.leb_gt. lia.
Qed.

Lemma lower_not_dot (c : ascii) : lower c = true -> lit "." c = false.
Proof.
  intros H. destruct (lit "." c) eqn:E; [|reflexivity].
  apply PyFacts.chr_eqb_eq in E. subst c. discriminate H.
Qed.

Section Steps.

Context {A : Type}.

Lemma go_Cat (r1 r2 : regex) (s : pystr) (g : groups) (k : pystr -> groups -> option A) :
  go (Cat r1 r2) s g k = go r1 s g (fun s' g' => go r2 s' g' k).
Proof. reflexivity. Qed.

Lemma go_Group_Plus (i : nat) (p : ascii -> bool) (s : pystr) (g : groups)
    (k : pystr -> groups -> option A) :
  go (Group i (Plus p)) s g k =
  plus_go p (fun s' => k s' (set_group i (consumed s s') g)) s.
Proof. reflexivity. Qed.

Lemma go_Opt (r : regex) (s : pystr) (g : groups) (k : pystr -> groups -> option A) :
  go (Opt r) s g k = orelse (go r s g k) (k s g).
Proof. reflexivity. Qed.

(** An optional character before a continuation that cannot start on it. *)
Lemma go_Opt_Chr (c : ascii) (s : pystr) (g : groups) (k : pystr -> groups -> option A) :
  (forall r, k (c :: r) g = None) ->
  go (Opt (Chr (lit c))) s g k = k (skip_chr c s) g.
Proof.
  intros H. cbn [go]. unfold skip_chr, lit.
  destruct s as [|d s]; [reflexivity|].
  destruct (Py.chr_eqb c d) eqn:E; [|reflexivity].
  apply PyFacts.chr_eqb_eq in E. subst d. now rewrite H, orelse_none_r.
Qed.

Lemma go_Alt_Chr_Eps (c : ascii) (s : pystr) (g : groups) (k : pystr -> groups -> option A) :
  (forall r, k (c :: r) g = None) ->
  go (Alt (Chr (lit c)) Eps) s g k = k (skip_chr c s) g.
Proof.
  intros H. cbn [go]. unfold skip_chr, lit.
  destruct s as [|d s]; [reflexivity|].
  destruct (Py.chr_eqb c d) eqn:E; [|reflexivity].
  apply PyFacts.chr_eqb_eq in E. subst d. now rewrite H, orelse_none_r.
Qed.

End Steps.

Lemma go_digits_last (i : nat) (s : pystr) (g : groups) :
  go (Group i (Plus digit)) s g (fun _ g' => Some g') =
  match fst (span digit s) with
  | [] => None
  | _ :: _ => Some (set_group i (fst (span digit s)) g)
  end.
Proof.
  rewrite go_Group_Plus, plus_go_accept by discriminate.
  destruct (span digit s) as [a b] eqn:E. cbn [fst snd].
  now rewrite (consumed_span _ _ _ _ E).
Qed.

Lemma go_digits_last_refuse (i : nat) (c : ascii) (s : pystr) (g : groups) :
  digit c = false ->
  go (Group i (Plus digit)) (c :: s) g (fun _ g' => Some g') = None.
Proof. intros H. rewrite go_digits_last. simpl. now rewrite H. Qed.

Lemma go_sub (s : pystr) (g : groups) :
  go (Cat (Alt (Chr (lit ".")) Eps) (Group 5 (Plus digit))) s g
     (fun _ g' => Some g')
  = match fst (span digit (skip_chr "." s)) with
    | [] => None
    | _ :: _ => Some (set_group 5 (fst (span digit (skip_chr "." s))) g)
    end.
Proof.
  rewrite go_Cat, go_Alt_Chr_Eps.
  - apply go_digits_last.
  - intros r. now apply go_digits_last_refuse.
Qed.

Lemma go_sub_refuse (c : ascii) (s : pystr) (g : groups) :
  lower c = true ->
  go (Cat (Alt (Chr (lit ".")) Eps) (Group 5 (Plus digit))) (c :: s) g
     (fun _ g' => Some g') = None.
Proof.
  intros H. rewrite go_sub. unfold skip_chr.
  change (Py.chr_eqb "." c) with (lit "." c).
  rewrite (lower_not_dot c H). simpl. now rewrite (lower_not_digit c H).
Qed.

Lemma go_stage (s : pystr) (g : groups) :
  go (Cat (Group 4 (Plus lower))
     (Cat (Alt (Chr (lit ".")) Eps) (Group 5 (Plus digit)))) s g
     (fun _ g' => Some g')
  = match fst (span lower s) with
    | [] => None
    | _ :: _ =>
        go (Cat (Alt (Chr (lit ".")) Eps) (Group 5 (Plus digit)))
           (snd (span lower s)) (set_group 4 (fst (span lower s)) g)
           (fun _ g' => Some g')
    end.
Proof.
  rewrite go_Cat, go_Group_Plus, plus_go_refuse.
  - destruct (span lower s) as [a b] eqn:E. cbn [fst snd].
    now rewrite (consumed_span _ _ _ _ E).
  - intros c r H. now apply go_sub_refuse.
Qed.

Lemma go_stage_refuse (s : pystr) (g : groups) :
  go (Cat (Group 4 (Plus lower))
     (Cat (Alt (Chr (lit ".")) Eps) (Group 5 (Plus digit)))) ("-"%char :: s) g
     (fun _ g' => Some g') = None.
Proof. now rewrite go_stage. Qed.

Lemma go_pre (s : pystr) (g : groups) :
  go (Cat (Opt (Chr (lit "-")))
     (Cat (Group 4 (Plus lower))
     (Cat (Alt (Chr (lit ".")) Eps)
          (Group 5 (Plus digit))))) s g (fun _ g' => Some g')
  = match scan_pre s with
    | Some (letters, num) => Some (set_group 5 num (set_group 4 letters g))
    | None => None
    end.
Proof.
  rewrite go_Cat, go_Opt_Chr by (intros r; apply go_stage_refuse).
  rewrite go_stage, go_sub. unfold scan_pre.
  destruct (span lower (skip_chr "-" s)) as [letters r] eqn:E. cbn [fst snd].
  destruct letters as [|l letters]; [reflexivity|].
  destruct (span digit (skip_chr "." r)) as [num r'] eqn:E'. cbn [fst].
  now destruct num.
Qed.

Lemma go_Cat_Chr {A : Type} (c : ascii) (r : regex) (s : pystr) (g : groups)
    (k : pystr -> groups -> option A) :
  go (Cat (Chr (lit c)) r) s g k =
  match s with
  | d :: s' => if Py.chr_eqb c d then go r s' g k else None
  | [] => None
  end.
Proof. reflexivity. Qed.

Lemma go_dot_refuse {A : Type} (c : ascii) (r : regex) (s : pystr) (g : groups)
    (k : pystr -> groups -> option A) :
  digit c = true -> go (Cat (Chr (lit ".")) r) (c :: s) g k = None.
Proof.
  intros H. rewrite go_Cat_Chr.
  change (Py.chr_eqb "." c) with (lit "." c). now rewrite (digit_not_dot c H).
Qed.

Lemma go_patch (s : pystr) (g : groups) :
  go (Cat (Group 3 (Plus digit))
          (Opt (Cat (Opt (Chr (lit "-")))
               (Cat (Group 4 (Plus lower))
               (Cat (Alt (Chr (lit ".")) Eps)
                    (Group 5 (Plus digit))))))) s g (fun _ g' => Some g')
  = match fst (span digit s) with
    | [] => None
    | _ :: _ =>
        let g3 := set_group 3 (fst (span digit s)) g in
        Some match scan_pre (snd (span digit s)) with
             | Some (letters, num) => set_group 5 num (set_group 4 letters g3)
             | None => g3
             end
    end.
Proof.
  rewrite go_Cat, go_Group_Plus, plus_go_accept.
  - destruct (span digit s) as [a b] eqn:E. cbn [fst snd].
    destruct a as [|d a]; [reflexivity|].
    rewrite (consumed_span _ _ _ _ E), go_Opt, go_pre.
    now destruct (scan_pre b) as [[l n]|].
  - intros r. rewrite go_Opt.
    match goal with |- orelse ?a _ <> None => now destruct a end.
Qed.

(** The groups of [re.match] on the version pattern are those of the
    scanner, on every input. *)
Theorem re_match_version (s : pystr) :
  re_match PythonManifestParser.version_re s
  = option_map groups_of (scan_version s).
Proof.
  unfold re_match, PythonManifestParser.version_re, scan_version.
  rewrite go_Cat, go_Group_Plus, plus_go_refuse
    by (intros c r H; now apply go_dot_refuse).
  destruct (span digit s) as [M r1] eqn:E1. cbn [fst snd].
  destruct M as [|x M]; [reflexivity|].
  rewrite (consumed_span _ _ _ _ E1), go_Cat_Chr.
  destruct r1 as [|d1 r2]; [reflexivity|].
  destruct (Py.chr_eqb "." d1); [|reflexivity].
  rewrite go_Cat, go_Group_Plus, plus_go_refuse
    by (intros c r H; now apply go_dot_refuse).
  destruct (span digit r2) as [m r3] eqn:E2. cbn [fst snd].
  destruct m as [|y m]; [reflexivity|].
  rewrite (consumed_span _ _ _ _ E2), go_Cat_Chr.
  destruct r3 as [|d2 r4]; [reflexivity|].
  destruct (Py.chr_eqb "." d2); [|reflexivity].
  rewrite go_patch.
  destruct (span digit r4) as [p r5] eqn:E3. cbn [fst snd].
  destruct p as [|z p]; [reflexivity|].
  cbn [option_map groups_of]. now destruct (scan_pre r5) as [[l n]|].
Qed.

End ReFacts.

(** ** [parse_version] through the scanner *)

Module ParseFacts.

Import Py PythonManifestParser Versions Scan.

Lemma int_numeral (s : pystr) (k : Z) : int s = Some k -> numeral s = true.
Proof.
  destruct s as [|c s]; [discriminate|]. unfold int, numeral.
  destruct (max_str_digits <? Z.of_nat (List.length (c :: s))); [discriminate|].
  intros H. now apply PyFacts.int_from_some in H.
Qed.

Lemma int_nonneg (s : pystr) (k : Z) : int s = Some k -> 0 <= k.
Proof.
  destruct s as [|c s]; [discriminate|]. unfold int.
  destruct (max_str_digits <? Z.of_nat (List.length (c :: s))); [discriminate|].
  intros H. apply (PyFacts.int_from_nonneg _ _ _ H). lia.
Qed.

(** A numeral within the digit limit converts. *)
Lemma numeral_int (s : pystr) :
  numeral s = true -> Z.of_nat (List.length s) <= max_str_digits ->
  exists k, int s = Some k /\ 0 <= k.
Proof.
  destruct s as [|c s]; [discriminate|]. unfold int, numeral. intros H L.
  destruct (Z.ltb_spec max_str_digits (Z.of_nat (List.length (c :: s)))); [lia|].
  apply PyFacts.int_from_digits; [assumption | lia].
Qed.

(** On a numeral [int] raises only for the digit limit. *)
Lemma int_none (s : pystr) :
  numeral s = true -> int s = None ->
  max_str_digits < Z.of_nat (List.length s).
Proof.
  intros H E.
  destruct (Z.lt_ge_cases max_str_digits (Z.of_nat (List.length s)))
    as [L|L]; [exact L|].
  destruct (numeral_int s H) as [k [Ek _]]; [lia | congruence].
Qed.

Lemma numeral_digits (s : pystr) : numeral s = true -> forallb Re.digit s = true.
Proof. now destruct s. Qed.

Lemma numeral_cons (s : pystr) :
  numeral s = true -> exists c r, s = c :: r /\ isdigit c = true.
Proof.
  destruct s as [|c r]; [discriminate|]. simpl. intros H.
  apply andb_true_iff in H. now exists c, r.
Qed.

Lemma parse_version_scan (s : pystr) :
  parse_version s =
  match scan_version s with
  | Some x => key_of x
  | None => Some (0, 0, 0, 0, 0)
  end.
Proof.
  unfold parse_version. rewrite ReFacts.re_match_version.
  destruct (scan_version s) as [[[[M m] p] pre]|]; [|reflexivity].
  destruct pre as [[l n]|]; reflexivity.
Qed.

Lemma scan_core (M m p rest : pystr) :
  numeral M = true -> numeral m = true -> numeral p = true ->
  match rest with [] => True | c :: _ => isdigit c = false end ->
  scan_version (core M m p ++ rest) = Some (M, m, p, scan_pre rest).
Proof.
  intros HM Hm Hp Hr. unfold scan_version, core.
  rewrite <- !app_assoc. cbn [str list_ascii_of_string app].
  rewrite (ReFacts.span_run Re.digit M) by (auto using numeral_digits).
  destruct M as [|x M]; [discriminate|]. rewrite PyFacts.chr_eqb_refl.
  rewrite (ReFacts.span_run Re.digit m) by (auto using numeral_digits).
  destruct m as [|y m]; [discriminate|]. rewrite PyFacts.chr_eqb_refl.
  rewrite (ReFacts.span_run Re.digit p) by (auto using numeral_digits).
  now destruct p.
Qed.

Lemma stage_name_lower (st : stage) : forallb Re.lower (stage_name st) = true.
Proof. now destruct st. Qed.

Lemma skip_hyphen (hyphen : bool) (st : stage) (r : pystr) :
  skip_chr "-" (opt_chr hyphen "-" ++ stage_name st ++ r) = stage_name st ++ r.
Proof. now destruct hyphen, st. Qed.

Lemma skip_dot (dot : bool) (n : pystr) :
  numeral n = true -> skip_chr "." (opt_chr dot "." ++ n) = n.
Proof.
  intros H. destruct (numeral_cons n H) as [c [r [-> Hc]]].
  unfold opt_chr, skip_chr. destruct dot; cbn [app].
  - now rewrite PyFacts.chr_eqb_refl.
  - destruct (chr_eqb "." c) eqn:E; [|reflexivity].
    apply PyFacts.chr_eqb_eq in E. subst c. discriminate Hc.
Qed.

Lemma scan_pre_numbered (hyphen dot : bool) (st : stage) (n : pystr) :
  numeral n = true ->
  scan_pre (opt_chr hyphen "-" ++ stage_name st ++ opt_chr dot "." ++ n)
  = Some (stage_name st, n).
Proof.
  intros H. unfold scan_pre. rewrite skip_hyphen.
  rewrite (ReFacts.span_run Re.lower (stage_name st)).
  - cbv beta iota.
    destruct (stage_name st) as [|l ls] eqn:El; [now destruct st|].
    rewrite (skip_dot dot n H).
    rewrite <- (app_nil_r n) at 1.
    rewrite (ReFacts.span_run Re.digit n) by (auto using numeral_digits).
    now destruct n.
  - apply stage_name_lower.
  - destruct (numeral_cons n H) as [c [r [-> Hc]]].
    destruct dot; simpl; [reflexivity|].
    destruct (Re.lower c) eqn:E; [|reflexivity].
    apply ReFacts.lower_not_digit in E. unfold Re.digit in E. congruence.
Qed.

Lemma scan_pre_bare (hyphen : bool) (st : stage) :
  scan_pre (opt_chr hyphen "-" ++ stage_name st) = None.
Proof. now destruct hyphen, st. Qed.

Lemma stage_first_not_digit (hyphen : bool) (st : stage) (r : pystr) :
  match opt_chr hyphen "-" ++ stage_name st ++ r with
  | [] => True
  | c :: _ => isdigit c = false
  end.
Proof. now destruct hyphen, st. Qed.

Lemma parse_core (M m p : pystr) (a b c : Z) :
  int M = Some a -> int m = Some b -> int p = Some c ->
  parse_version (core M m p) = Some (a, b, c, 0, 0).
Proof.
  intros HM Hm Hp. rewrite parse_version_scan.
  rewrite <- (app_nil_r (core M m p)).
  rewrite scan_core by (eauto using int_numeral).
  cbn. now rewrite HM, Hm, Hp.
Qed.

Lemma parse_bare (M m p : pystr) (a b c : Z) (hyphen : bool) (st : stage) :
  int M = Some a -> int m = Some b -> int p = Some c ->
  parse_version (bare M m p hyphen st) = Some (a, b, c, 0, 0).
Proof.
  intros HM Hm Hp. rewrite parse_version_scan. unfold bare.
  rewrite scan_core; eauto using int_numeral.
  - rewrite scan_pre_bare. cbn. now rewrite HM, Hm, Hp.
  - rewrite <- (app_nil_r (stage_name st)). apply stage_first_not_digit.
Qed.

Lemma parse_prerelease (M m p n : pystr) (a b c k : Z) (hyphen dot : bool)
    (st : stage) :
  int M = Some a -> int m = Some b -> int p = Some c -> int n = Some k ->
  parse_version (prerelease M m p hyphen st dot n)
  = Some (a, b, c, - stage_rank st, - k).
Proof.
  intros HM Hm Hp Hn. rewrite parse_version_scan. unfold prerelease, bare.
  rewrite <- !app_assoc.
  rewrite scan_core; eauto using int_numeral.
  - rewrite scan_pre_numbered by (eauto using int_numeral).
    unfold key_of. pose proof (int_numeral n k Hn) as Hnum.
    destruct n as [|d n]; [discriminate|].
    rewrite Hn, HM, Hm, Hp. now destruct st.
  - apply stage_first_not_digit.
Qed.

End ParseFacts.

(** ** Order of the keys: stable and pre-release versions *)

Module KeyOrder.

Import Py PythonManifestParser Versions.

Lemma tuple_lt_stage (a b c d e d' e' : Z) :
  tuple_lt [a; b; c; d; e] [a; b; c; d'; e'] =
  if d =? d' then e <? e' else d <? d'.
Proof.
  cbn [tuple_lt]. rewrite !Z.eqb_refl.
  destruct (d =? d'); [|reflexivity]. now destruct (e =? e') eqn:E, (e <? e') eqn:E'; try lia.
Qed.

Lemma version_compare_keys (x y : pystr) (kx ky : VersionKey) :
  parse_version x = Some kx -> parse_version y = Some ky ->
  version_compare x y =
  Some (Z.b2z (tuple_gt (items kx) (items ky))
        - Z.b2z (tuple_lt (items kx) (items ky))).
Proof. intros Hx Hy. unfold version_compare. now rewrite Hx, Hy. Qed.

Lemma stage_rank_pos (st : stage) : 1 <= stage_rank st <= 3.
Proof. destruct st; cbv; intuition discriminate. Qed.

Lemma later_stage_rank (s1 s2 : stage) :
  later_stage s1 s2 = true -> stage_rank s1 < stage_rank s2.
Proof. destruct s1, s2; cbv; congruence. Qed.

(** A key with a higher fourth component is the greater one. *)
Lemma compare_by_stage (x y : pystr) (a b c d e d' e' : Z) :
  parse_version x = Some (a, b, c, d, e) ->
  parse_version y = Some (a, b, c, d', e') ->
  d' < d -> version_compare x y = Some 1.
Proof.
  intros Hx Hy H. rewrite (version_compare_keys _ _ _ _ Hx Hy).
  unfold tuple_gt, items. rewrite !tuple_lt_stage.
  destruct (d' =? d) eqn:E1; [lia|]. destruct (d =? d') eqn:E2; [lia|].
  destruct (d' <? d) eqn:E3; [|lia]. destruct (d <? d') eqn:E4; [lia|].
  reflexivity.
Qed.

Lemma compare_below_stage (x y : pystr) (a b c d e d' e' : Z) :
  parse_version x = Some (a, b, c, d, e) ->
  parse_version y = Some (a, b, c, d', e') ->
  d < d' -> version_compare x y = Some (-1).
Proof.
  intros Hx Hy H. rewrite (version_compare_keys _ _ _ _ Hx Hy).
  unfold tuple_gt, items. rewrite !tuple_lt_stage.
  destruct (d' =? d) eqn:E1; [lia|]. destruct (d =? d') eqn:E2; [lia|].
  destruct (d' <? d) eqn:E3; [lia|]. destruct (d <? d') eqn:E4; [|lia].
  reflexivity.
Qed.

(** With equal fourth components the fifth decides. *)
Lemma compare_by_number (x y : pystr) (a b c d e e' : Z) :
  parse_version x = Some (a, b, c, d, e) ->
  parse_version y = Some (a, b, c, d, e') ->
  e < e' -> version_compare x y = Some (-1).
Proof.
  intros Hx Hy H. rewrite (version_compare_keys _ _ _ _ Hx Hy).
  unfold tuple_gt, items. rewrite !tuple_lt_stage, !Z.eqb_refl.
  destruct (e' <? e) eqn:E3; [lia|]. destruct (e <? e') eqn:E4; [|lia].
  reflexivity.
Qed.

Section SameNumbers.

(** Two spellings of the same major, minor and patch numbers. *)
Variables (M m p M' m' p' : pystr) (a b c : Z).
Hypothesis HM : int M = Some a.
Hypothesis Hm : int m = Some b.
Hypothesis Hp : int p = Some c.
Hypothesis HM' : int M' = Some a.
Hypothesis Hm' : int m' = Some b.
Hypothesis Hp' : int p' = Some c.

Lemma stable_above_numbered (hyphen dot : bool) (st : stage) (n : pystr) (k : Z) :
  int n = Some k ->
  version_compare (core M m p) (prerelease M' m' p' hyphen st dot n) = Some 1.
Proof.
  intros Hn.
  apply (compare_by_stage _ _ a b c 0 0 (- stage_rank st) (- k)).
  - now apply ParseFacts.parse_core.
  - now apply ParseFacts.parse_prerelease.
  - pose proof (stage_rank_pos st). lia.
Qed.

Lemma later_stage_above (h1 d1 h2 d2 : bool) (s1 s2 : stage) (n1 n2 : pystr)
    (k1 k2 : Z) :
  int n1 = Some k1 -> int n2 = Some k2 -> later_stage s1 s2 = true ->
  version_compare (prerelease M m p h1 s1 d1 n1) (prerelease M' m' p' h2 s2 d2 n2)
  = Some 1.
Proof.
  intros H1 H2 Hs.
  apply (compare_by_stage _ _ a b c (- stage_rank s1) (- k1)
           (- stage_rank s2) (- k2)).
  - now apply ParseFacts.parse_prerelease.
  - now apply ParseFacts.parse_prerelease.
  - apply later_stage_rank in Hs. lia.
Qed.

(** Within one stage the written sub-ordinal enters the key negated: the
    higher sub-ordinal gives the smaller key. *)
Lemma sub_ordinal_order_reversed (h1 d1 h2 d2 : bool) (st : stage)
    (n1 n2 : pystr) (k1 k2 : Z) :
  int n1 = Some k1 -> int n2 = Some k2 -> k2 < k1 ->
  version_compare (prerelease M m p h1 st d1 n1) (prerelease M' m' p' h2 st d2 n2)
  = Some (-1).
Proof.
  intros H1 H2 Hk.
  apply (compare_by_number _ _ a b c (- stage_rank st) (- k1) (- k2)).
  - now apply ParseFacts.parse_prerelease.
  - now apply ParseFacts.parse_prerelease.
  - lia.
Qed.

(** C1, as amended.  For equal major, minor and patch numbers, the key of the
    stable version is strictly greater than the key of every pre-release
    version written with a sub-ordinal, whatever its stage and spelling, and
    among such pre-releases a later stage gives the greater key: rc above
    beta above alpha.  In particular
    3.11.0 > 3.11.0-rc.1 > 3.11.0-beta.2 > 3.11.0-alpha.1 under
    [version_compare]. *)
Theorem stable_rc_beta_alpha_order :
  (forall hyphen dot st n k,
      int n = Some k ->
      version_compare (core M m p) (prerelease M' m' p' hyphen st dot n)
      = Some 1)
  /\ (forall h1 d1 h2 d2 s1 s2 n1 n2 k1 k2,
      int n1 = Some k1 -> int n2 = Some k2 -> later_stage s1 s2 = true ->
      version_compare (prerelease M m p h1 s1 d1 n1)
                      (prerelease M' m' p' h2 s2 d2 n2) = Some 1)
  /\ version_compare "3.11.0" "3.11.0-rc.1" = Some 1
  /\ version_compare "3.11.0-rc.1" "3.11.0-beta.2" = Some 1
  /\ version_compare "3.11.0-beta.2" "3.11.0-alpha.1" = Some 1.
Proof.
  split; [|split; [|repeat split; reflexivity]].
  - intros hyphen dot st n k Hn.
    now apply (stable_above_numbered hyphen dot st n k).
  - intros h1 d1 h2 d2 s1 s2 n1 n2 k1 k2 H1 H2 Hs.
    now apply (later_stage_above h1 d1 h2 d2 s1 s2 n1 n2 k1 k2).
Qed.

End SameNumbers.

End KeyOrder.

(** ** Classification by lexical cues *)

Module Classes.

Import Py PythonManifestParser Versions.

(** A string without a hyphen that ends in a digit shows none of the cues. *)
Lemma no_cue (s : pystr) (d : ascii) :
  ~ In "-"%char (s ++ [d]) -> isdigit d = true ->
  is_alpha (s ++ [d]) = false /\ is_beta (s ++ [d]) = false
  /\ is_rc (s ++ [d]) = false.
Proof.
  intros Hh Hd. unfold is_alpha, is_beta, is_rc.
  change (str "alpha") with (str "alph" ++ ["a"%char]).
  change (str "beta") with (str "bet" ++ ["a"%char]).
  change (str "rc") with (str "r" ++ ["c"%char]).
  rewrite !PyFacts.endswith_last by (intros ->; discriminate Hd).
  change (str "-alpha.") with ("-"%char :: str "alpha.").
  change (str "-alpha") with ("-"%char :: str "alpha").
  change (str "-beta.") with ("-"%char :: str "beta.").
  change (str "-beta") with ("-"%char :: str "beta").
  change (str "-rc.") with ("-"%char :: str "rc.").
  change (str "-rc") with ("-"%char :: str "rc").
  rewrite !PyFacts.contains_absent by assumption.
  repeat split.
Qed.

Lemma numeral_no_hyphen (s : pystr) : numeral s = true -> ~ In "-"%char s.
Proof.
  intros H Hin. apply ParseFacts.numeral_digits in H.
  rewrite forallb_forall in H. now apply H in Hin.
Qed.

Lemma numeral_last (s : pystr) :
  numeral s = true -> exists r d, s = r ++ [d] /\ isdigit d = true.
Proof.
  intros H. pose proof (ParseFacts.numeral_digits s H) as Hd.
  destruct s as [|c s] using rev_ind; [discriminate|].
  exists s, c. split; [reflexivity|].
  rewrite forallb_app in Hd. apply andb_true_iff in Hd.
  destruct Hd as [_ Hd]. simpl in Hd. now rewrite andb_true_r in Hd.
Qed.

Lemma hyphenless_no_hyphen (M m p n : pystr) (st : stage) (dot : bool) :
  numeral M = true -> numeral m = true -> numeral p = true ->
  numeral n = true ->
  ~ In "-"%char (prerelease M m p false st dot n).
Proof.
  intros HM Hm Hp Hn. unfold prerelease, bare, core.
  rewrite !in_app_iff.
  pose proof (numeral_no_hyphen _ HM). pose proof (numeral_no_hyphen _ Hm).
  pose proof (numeral_no_hyphen _ Hp). pose proof (numeral_no_hyphen _ Hn).
  assert (~ In "-"%char (stage_name st))
    by (destruct st; simpl; intuition discriminate).
  assert (~ In "-"%char (opt_chr dot ".")) by
    (destruct dot; simpl; intuition discriminate).
  simpl. intuition discriminate.
Qed.

Lemma is_stable_spec (v : pystr) :
  is_stable v = true <->
  is_alpha v = false /\ is_beta v = false /\ is_rc v = false.
Proof.
  unfold is_stable. rewrite negb_true_iff, !orb_false_iff. tauto.
Qed.

End Classes.

(** ** Claims about stages, sub-ordinals and classes *)

Module Stages.

Import Py PythonManifestParser Versions.

(** The stable version and a pre-release written as a bare stage have the
    same key. *)
Lemma stable_equals_bare (M m p : pystr) (a b c : Z) (hyphen : bool) (st : stage) :
  int M = Some a -> int m = Some b -> int p = Some c ->
  version_compare (core M m p) (bare M m p hyphen st) = Some 0.
Proof.
  intros HM Hm Hp.
  rewrite (KeyOrder.version_compare_keys _ _ (a, b, c, 0, 0) (a, b, c, 0, 0)).
  - unfold tuple_gt, items. rewrite KeyOrder.tuple_lt_stage. reflexivity.
  - now apply ParseFacts.parse_core.
  - now apply ParseFacts.parse_bare.
Qed.

(** C1, as stated, fails: 3.9.0-alpha is classified as an alpha release and
    3.9.0 as stable, both with major, minor, patch 3, 9, 0, and the two keys
    are equal, so the stable key is not strictly greater. *)
Lemma bare_alpha_key_not_below_stable :
  is_stable "3.9.0" = true
  /\ is_alpha "3.9.0-alpha" = true
  /\ str "3.9.0" = core "3" "9" "0"
  /\ str "3.9.0-alpha" = bare "3" "9" "0" true SAlpha
  /\ parse_version "3.9.0" = Some (3, 9, 0, 0, 0)
  /\ parse_version "3.9.0-alpha" = Some (3, 9, 0, 0, 0)
  /\ version_compare "3.9.0" "3.9.0-alpha" = Some 0
  /\ version_compare "3.9.0" "3.9.0-alpha" <> Some 1.
Proof. repeat split; try reflexivity. discriminate. Qed.

(** C1 at 3.11.0, 3.11.0-rc.1 and 3.11.0-beta.2. *)
Lemma stable_rc_beta_alpha_order_witness :
  version_compare (core "3" "11" "0") (prerelease "3" "11" "0" true SRc true "1")
  = Some 1
  /\ version_compare (prerelease "3" "11" "0" true SRc true "1")
                     (prerelease "3" "11" "0" true SBeta true "2") = Some 1.
Proof.
  destruct (KeyOrder.stable_rc_beta_alpha_order "3" "11" "0" "3" "11" "0" 3 11 0
              eq_refl eq_refl eq_refl eq_refl eq_refl eq_refl) as [H1 [H2 _]].
  split.
  - apply (H1 true true SRc (str "1") 1). reflexivity.
  - apply (H2 true true true true SRc SBeta (str "1") (str "2") 1 2);
      reflexivity.
Defined.

(** C2: the code gives the higher sub-ordinal the smaller key.  The key of
    3.9.0-rc.2 is (3, 9, 0, -1, -2), below the key (3, 9, 0, -1, -1) of
    3.9.0-rc.1, and [version_compare] answers -1 where the claim asks for
    1. *)
Theorem rc2_compares_below_rc1 :
  parse_version "3.9.0-rc.2" = Some (3, 9, 0, -1, -2)
  /\ parse_version "3.9.0-rc.1" = Some (3, 9, 0, -1, -1)
  /\ version_compare "3.9.0-rc.2" "3.9.0-rc.1" = Some (-1)
  /\ version_compare "3.10.0-rc.10" "3.10.0-rc.5" = Some (-1).
Proof. repeat split; reflexivity. Qed.

(** C4.  On every version string the chain alpha, beta, rc, else stable of
    [filter_versions] takes exactly one branch when every release type is
    requested: the class [classify] names, which is alpha when the alpha
    cue is present, else beta when the beta cue is, else rc when the rc cue
    is, else stable; and [is_stable] holds if and only if none of
    [is_alpha], [is_beta], [is_rc] does. *)
Theorem classify_exactly_one (v : pystr) :
  release_branch true true true true v = Some (classify v)
  /\ (forall c : release_class,
        classify v = c <->
        match c with
        | Alpha => is_alpha v = true
        | Beta => is_alpha v = false /\ is_beta v = true
        | Rc => is_alpha v = false /\ is_beta v = false /\ is_rc v = true
        | Stable => is_stable v = true
        end)
  /\ is_stable v = negb (is_alpha v || is_beta v || is_rc v)
  /\ (is_stable v = true <->
      is_alpha v = false /\ is_beta v = false /\ is_rc v = false).
Proof.
  split; [|split; [|split; [reflexivity | apply Classes.is_stable_spec]]].
  - unfold release_branch, classify, is_stable.
    destruct (is_alpha v), (is_beta v), (is_rc v); reflexivity.
  - intros c. unfold classify, is_stable.
    destruct (is_alpha v), (is_beta v), (is_rc v), c; simpl;
      intuition congruence.
Qed.

(** C10.  A version written MAJOR.MINOR.PATCH, a stage name and digits with
    no hyphen (3.9.0rc1) shows none of the cues, so every classification
    predicate treats it as stable; [parse_version] still gives it the rank
    of its stage, and it sorts strictly below the stable version with the
    same numbers. *)
Theorem hyphenless_prerelease_stable_but_ranked
    (M m p n : pystr) (a b c k : Z) (st : stage) (dot : bool) :
  int M = Some a -> int m = Some b -> int p = Some c -> int n = Some k ->
  let v := prerelease M m p false st dot n in
  is_alpha v = false /\ is_beta v = false /\ is_rc v = false
  /\ is_stable v = true /\ classify v = Stable
  /\ parse_version v = Some (a, b, c, - stage_rank st, - k)
  /\ - stage_rank st < 0
  /\ version_compare v (core M m p) = Some (-1)
  /\ version_compare (core M m p) v = Some 1.
Proof.
  intros HM Hm Hp Hn v.
  assert (Hcue : is_alpha v = false /\ is_beta v = false /\ is_rc v = false).
  { pose proof (Classes.hyphenless_no_hyphen M m p n st dot
                  (ParseFacts.int_numeral _ _ HM) (ParseFacts.int_numeral _ _ Hm)
                  (ParseFacts.int_numeral _ _ Hp) (ParseFacts.int_numeral _ _ Hn))
      as Hh.
    destruct (Classes.numeral_last n (ParseFacts.int_numeral _ _ Hn))
      as [r [d [En Hd]]].
    subst v. unfold prerelease in *. rewrite En, !app_assoc in *.
    now apply Classes.no_cue. }
  destruct Hcue as [Ha [Hb Hr]].
  pose proof (ParseFacts.parse_prerelease M m p n a b c k false dot st
                HM Hm Hp Hn) as Hkey.
  pose proof (ParseFacts.parse_core M m p a b c HM Hm Hp) as Hcore.
  pose proof (KeyOrder.stage_rank_pos st) as Hrank.
  repeat split; try assumption.
  - unfold is_stable. now rewrite Ha, Hb, Hr.
  - unfold classify. now rewrite Ha, Hb, Hr.
  - lia.
  - apply (KeyOrder.compare_below_stage _ _ a b c (- stage_rank st) (- k) 0 0);
      [assumption | assumption | lia].
  - apply (KeyOrder.compare_by_stage _ _ a b c 0 0 (- stage_rank st) (- k));
      [assumption | assumption | lia].
Qed.

(** C10 at 3.9.0rc1. *)
Lemma hyphenless_prerelease_witness :
  is_stable "3.9.0rc1" = true
  /\ parse_version "3.9.0rc1" = Some (3, 9, 0, -1, -1)
  /\ version_compare "3.9.0rc1" "3.9.0" = Some (-1).
Proof.
  destruct (hyphenless_prerelease_stable_but_ranked "3" "9" "0" "1" 3 9 0 1
              SRc false eq_refl eq_refl eq_refl eq_refl)
    as [_ [_ [_ [H1 [_ [H2 [_ [H3 _]]]]]]]].
  repeat split; assumption.
Defined.

End Stages.

(** ** Inputs that do not look like a version *)

Module Malformed.

Import Py PythonManifestParser Versions Scan.

Lemma span_numeral (s a b : pystr) :
  span Re.digit s = (a, b) -> a <> [] -> numeral a = true.
Proof.
  intros E Ha. apply ReFacts.span_all in E.
  destruct a; [now elim Ha | exact E].
Qed.

Lemma scan_version_some (s M m p : pystr) (pre : option (pystr * pystr)) :
  scan_version s = Some (M, m, p, pre) ->
  numeral M = true /\ numeral m = true /\ numeral p = true
  /\ exists rest, s = core M m p ++ rest /\ pre = scan_pre rest.
Proof.
  unfold scan_version.
  destruct (span Re.digit s) as [M0 r1] eqn:E1.
  destruct M0 as [|x M0]; [discriminate|].
  destruct r1 as [|d1 r2]; [discriminate|].
  destruct (chr_eqb "." d1) eqn:D1; [|discriminate].
  destruct (span Re.digit r2) as [m0 r3] eqn:E2.
  destruct m0 as [|y m0]; [discriminate|].
  destruct r3 as [|d2 r4]; [discriminate|].
  destruct (chr_eqb "." d2) eqn:D2; [|discriminate].
  destruct (span Re.digit r4) as [p0 r5] eqn:E3.
  destruct p0 as [|z p0]; [discriminate|].
  intros H. injection H as <- <- <- <-.
  apply PyFacts.chr_eqb_eq in D1, D2. subst d1 d2.
  repeat split.
  - now apply (span_numeral _ _ _ E1).
  - now apply (span_numeral _ _ _ E2).
  - now apply (span_numeral _ _ _ E3).
  - exists r5. split; [|reflexivity].
    rewrite (ReFacts.span_app _ _ _ _ E1), (ReFacts.span_app _ _ _ _ E2),
      (ReFacts.span_app _ _ _ _ E3).
    unfold core. cbn [str list_ascii_of_string]. now rewrite <- !app_assoc.
Qed.

Lemma scan_pre_some (r l n : pystr) :
  scan_pre r = Some (l, n) -> l <> [] /\ numeral n = true.
Proof.
  unfold scan_pre.
  destruct (span Re.lower (skip_chr "-" r)) as [l0 r1] eqn:E1.
  destruct l0 as [|x l0]; [discriminate|].
  destruct (span Re.digit (skip_chr "." r1)) as [n0 r2] eqn:E2.
  destruct n0 as [|y n0]; [discriminate|].
  intros H. injection H as <- <-. split; [discriminate|].
  now apply (span_numeral _ _ _ E2).
Qed.

Lemma span_past (p : ascii -> bool) (a s : pystr) :
  forallb p a = true ->
  span p (a ++ s) = (a ++ fst (span p s), snd (span p s)).
Proof.
  intros H. induction a as [|c a IH]; simpl in *.
  - now destruct (span p s).
  - apply andb_true_iff in H. destruct H as [Hc Ha].
    now rewrite Hc, (IH Ha).
Qed.

(** The scanner finds a version exactly at the inputs that start with
    MAJOR.MINOR.PATCH. *)
Lemma version_shaped_scan (s : pystr) :
  version_shaped s <-> exists x, scan_version s = Some x.
Proof.
  split.
  - intros [M [m [p [rest [HM [Hm [Hp ->]]]]]]].
    unfold scan_version, core. rewrite <- !app_assoc.
    cbn [str list_ascii_of_string app].
    rewrite (ReFacts.span_run Re.digit M) by (auto using ParseFacts.numeral_digits).
    destruct M as [|x M]; [discriminate|]. rewrite PyFacts.chr_eqb_refl.
    rewrite (ReFacts.span_run Re.digit m) by (auto using ParseFacts.numeral_digits).
    destruct m as [|y m]; [discriminate|]. rewrite PyFacts.chr_eqb_refl.
    rewrite (span_past Re.digit p) by (auto using ParseFacts.numeral_digits).
    destruct p as [|z p]; [discriminate|]. cbn [app]. eauto.
  - intros [[[[M m] p] pre] H].
    destruct (scan_version_some _ _ _ _ _ H) as [HM [Hm [Hp [rest [-> _]]]]].
    now exists M, m, p, rest.
Qed.

Lemma pre_order_stage (l : pystr) :
  l <> [] -> 1 <= dict_get pre_order l 4 <= 4.
Proof.
  intros Hl. unfold pre_order. cbn [dict_get].
  destruct (str_eqb (str "") l) eqn:E.
  - apply PyFacts.str_eqb_eq in E. now elim Hl.
  - destruct (str_eqb (str "rc") l), (str_eqb (str "beta") l),
      (str_eqb (str "alpha") l); lia.
Qed.

Lemma skip_chr_suffix (c : ascii) (s : pystr) :
  exists pre, s = pre ++ skip_chr c s.
Proof.
  destruct s as [|d s]; [now exists []|]. unfold skip_chr.
  destruct (chr_eqb c d); [now exists [d] | now exists []].
Qed.

(** The sub-ordinal the optional part captures lies in the text it reads. *)
Lemma scan_pre_where (r l n : pystr) :
  scan_pre r = Some (l, n) -> exists a b, r = a ++ n ++ b.
Proof.
  unfold scan_pre.
  destruct (span Re.lower (skip_chr "-" r)) as [l0 r1] eqn:E1.
  destruct l0 as [|x l0]; [discriminate|].
  destruct (span Re.digit (skip_chr "." r1)) as [n0 r2] eqn:E2.
  destruct n0 as [|y n0]; [discriminate|].
  intros H. injection H as <- <-.
  destruct (skip_chr_suffix "-" r) as [p1 H1].
  destruct (skip_chr_suffix "." r1) as [p2 H2].
  apply ReFacts.span_app in E1, E2.
  exists (p1 ++ (x :: l0) ++ p2), r2.
  rewrite H1, E1, H2, E2 at 1. now rewrite <- !app_assoc.
Qed.

(** A key that is computed lies within these bounds. *)
Lemma key_of_bounds (s : pystr) (x : pystr * pystr * pystr * option (pystr * pystr))
    (a b c d e : Z) :
  scan_version s = Some x -> key_of x = Some (a, b, c, d, e) ->
  0 <= a /\ 0 <= b /\ 0 <= c /\ -4 <= d <= 0 /\ e <= 0 /\ (d = 0 -> e = 0).
Proof.
  destruct x as [[[M m] p] pre]. intros H K.
  destruct (scan_version_some _ _ _ _ _ H) as [_ [_ [_ [rest [_ Hpre]]]]].
  unfold key_of in K. destruct pre as [[l n]|].
  - destruct (scan_pre_some rest l n (eq_sym Hpre)) as [Hl _].
    destruct n as [|y n]; [|destruct (int (y :: n)) as [k|] eqn:Ek];
      try discriminate;
      destruct (int M) as [a'|] eqn:Ea; try discriminate;
      destruct (int m) as [b'|] eqn:Eb; try discriminate;
      destruct (int p) as [c'|] eqn:Ec; try discriminate;
      destruct l as [|z l]; try (now elim Hl);
      injection K as <- <- <- <- <-;
      pose proof (ParseFacts.int_nonneg _ _ Ea);
      pose proof (ParseFacts.int_nonneg _ _ Eb);
      pose proof (ParseFacts.int_nonneg _ _ Ec);
      try pose proof (ParseFacts.int_nonneg _ _ Ek);
      repeat split;
      repeat match goal with
             | |- context [str_eqb ?u ?v] => destruct (str_eqb u v)
             end; lia.
  - destruct (int M) as [a'|] eqn:Ea; try discriminate.
    destruct (int m) as [b'|] eqn:Eb; try discriminate.
    destruct (int p) as [c'|] eqn:Ec; try discriminate.
    injection K as <- <- <- <- <-.
    pose proof (ParseFacts.int_nonneg _ _ Ea).
    pose proof (ParseFacts.int_nonneg _ _ Eb).
    pose proof (ParseFacts.int_nonneg _ _ Ec).
    repeat split; try lia; reflexivity.
Qed.

(** A key fails to be computed only for a numeral beyond the digit limit. *)
Lemma key_of_none (s : pystr) (x : pystr * pystr * pystr * option (pystr * pystr)) :
  scan_version s = Some x -> key_of x = None ->
  exists a d b,
    s = a ++ d ++ b /\ numeral d = true
    /\ max_str_digits < Z.of_nat (List.length d).
Proof.
  destruct x as [[[M m] p] pre]. intros H K.
  destruct (scan_version_some _ _ _ _ _ H) as [HM [Hm [Hp [rest [Hs Hpre]]]]].
  unfold core in Hs.
  assert (Hlong : int M = None \/ int m = None \/ int p = None
                  \/ exists l n, pre = Some (l, n) /\ int n = None).
  { unfold key_of in K. destruct pre as [[l n]|].
    - destruct n as [|y n].
      + destruct (scan_pre_some rest l [] (eq_sym Hpre)) as [_ Hn].
        discriminate Hn.
      + destruct (int (y :: n)) eqn:Ek; [|right; right; right; eauto].
        destruct (int M); [|now left]. destruct (int m); [|right; now left].
        destruct (int p); [discriminate | right; right; now left].
    - destruct (int M); [|now left]. destruct (int m); [|right; now left].
      destruct (int p); [discriminate | right; right; now left]. }
  destruct Hlong as [E|[E|[E|[l [n [-> E]]]]]].
  - exists [], M, (str "." ++ m ++ str "." ++ p ++ rest).
    split; [now rewrite Hs, <- !app_assoc|].
    split; [exact HM | now apply ParseFacts.int_none].
  - exists (M ++ str "."), m, (str "." ++ p ++ rest).
    split; [now rewrite Hs, <- !app_assoc|].
    split; [exact Hm | now apply ParseFacts.int_none].
  - exists (M ++ str "." ++ m ++ str "."), p, rest.
    split; [now rewrite Hs, <- !app_assoc|].
    split; [exact Hp | now apply ParseFacts.int_none].
  - destruct (scan_pre_some rest l n (eq_sym Hpre)) as [_ Hn].
    destruct (scan_pre_where rest l n (eq_sym Hpre)) as [a' [b' Hr]].
    exists (M ++ str "." ++ m ++ str "." ++ p ++ a'), n, b'.
    split; [rewrite Hs, Hr; now rewrite <- !app_assoc|].
    split; [exact Hn | now apply ParseFacts.int_none].
Qed.

Lemma parse_bounds (s : pystr) (a b c d e : Z) :
  parse_version s = Some (a, b, c, d, e) ->
  0 <= a /\ 0 <= b /\ 0 <= c /\ -4 <= d <= 0 /\ e <= 0 /\ (d = 0 -> e = 0).
Proof.
  rewrite ParseFacts.parse_version_scan.
  destruct (scan_version s) as [x|] eqn:E.
  - now apply (key_of_bounds s).
  - intros H. injection H as <- <- <- <- <-. repeat split; lia.
Qed.

Lemma parse_none_long (s : pystr) :
  parse_version s = None ->
  exists a d b,
    s = a ++ d ++ b /\ numeral d = true
    /\ max_str_digits < Z.of_nat (List.length d).
Proof.
  rewrite ParseFacts.parse_version_scan.
  destruct (scan_version s) as [x|] eqn:E; [|discriminate].
  now apply (key_of_none s).
Qed.

Lemma short_parses (s : pystr) :
  Z.of_nat (List.length s) <= max_str_digits ->
  exists k, parse_version s = Some k.
Proof.
  intros L. destruct (parse_version s) as [k|] eqn:E; [now exists k|].
  destruct (parse_none_long s E) as [a [d [b [-> [_ Hd]]]]].
  rewrite !length_app in L. lia.
Qed.

Lemma parse_unshaped (z : pystr) :
  ~ version_shaped z -> parse_version z = Some (0, 0, 0, 0, 0).
Proof.
  intros H. rewrite ParseFacts.parse_version_scan.
  destruct (scan_version z) as [x|] eqn:E; [|reflexivity].
  elim H. apply version_shaped_scan. now exists x.
Qed.

(** The zero key against a key within the bounds. *)
Lemma zero_above (a b c d e : Z) :
  0 <= a -> 0 <= b -> 0 <= c -> d <= 0 -> e <= 0 -> (d = 0 -> e = 0) ->
  Z.b2z (tuple_gt [0; 0; 0; 0; 0] [a; b; c; d; e])
  - Z.b2z (tuple_lt [0; 0; 0; 0; 0] [a; b; c; d; e]) = 1
  <-> a = 0 /\ b = 0 /\ c = 0 /\ d < 0.
Proof.
  intros Ha Hb Hc Hd He Hde. unfold tuple_gt. cbn [tuple_lt].
  destruct (Z.eqb_spec a 0), (Z.eqb_spec 0 a); try lia;
  destruct (Z.eqb_spec b 0), (Z.eqb_spec 0 b); try lia;
  destruct (Z.eqb_spec c 0), (Z.eqb_spec 0 c); try lia;
  destruct (Z.eqb_spec d 0), (Z.eqb_spec 0 d); try lia;
  destruct (Z.eqb_spec e 0), (Z.eqb_spec 0 e); try lia;
  repeat match goal with
         | |- context [?x <? ?y] => destruct (Z.ltb_spec x y)
         end; simpl; lia.
Qed.

(** C6, as stated, fails in two places: a version whose major number has
    4301 digits makes [int] and so [parse_version] raise, and 0.0.0-rc.1 is
    a parseable version string whose key is below the key of a malformed
    input. *)
Lemma zero_key_above_prerelease_of_zero :
  parse_version (long_numeral ++ str ".0.0") = None
  /\ parse_version "invalid" = Some (0, 0, 0, 0, 0)
  /\ parse_version "0.0.0-rc.1" = Some (0, 0, 0, -1, -1)
  /\ version_compare "invalid" "0.0.0-rc.1" = Some 1
  /\ version_compare "0.0.0-rc.1" "invalid" = Some (-1).
Proof. split; [vm_compute; reflexivity | repeat split; reflexivity]. Qed.

(** C6, as amended.  [parse_version] raises only on an input that holds a
    numeral of more than 4300 digits, the limit of [int], and so on no
    input of at most 4300 characters; on every input that does not start
    with MAJOR.MINOR.PATCH it returns (0, 0, 0, 0, 0); and under
    [version_compare] such an input compares less than or equal to every
    version string that parses, except that it compares greater than the
    pre-releases of 0.0.0, whose keys have a negative fourth component. *)
Theorem malformed_input_key :
  (forall s, parse_version s = None ->
     exists a d b,
       s = a ++ d ++ b /\ numeral d = true
       /\ max_str_digits < Z.of_nat (List.length d))
  /\ (forall s, Z.of_nat (List.length s) <= max_str_digits ->
        exists k, parse_version s = Some k)
  /\ (forall z, ~ version_shaped z -> parse_version z = Some (0, 0, 0, 0, 0))
  /\ (forall z s a b c d e,
      ~ version_shaped z ->
      parse_version s = Some (a, b, c, d, e) ->
      exists r,
        version_compare z s = Some r
        /\ -1 <= r <= 1
        /\ (r = 1 <-> a = 0 /\ b = 0 /\ c = 0 /\ d < 0)).
Proof.
  split; [apply parse_none_long|]. split; [apply short_parses|].
  split; [apply parse_unshaped|].
  intros z s a b c d e Hz H.
  destruct (parse_bounds s a b c d e H) as [Ha [Hb [Hc [Hd [He Hde]]]]].
  eexists.
  rewrite (KeyOrder.version_compare_keys _ _ _ _ (parse_unshaped z Hz) H).
  split; [reflexivity|]. cbn [items]. split.
  - destruct (tuple_gt [0; 0; 0; 0; 0] [a; b; c; d; e]),
      (tuple_lt [0; 0; 0; 0; 0] [a; b; c; d; e]); simpl; lia.
  - apply zero_above; lia.
Qed.

(** C6 at the inputs [invalid] and 3.11.0. *)
Lemma malformed_input_key_witness :
  parse_version "invalid" = Some (0, 0, 0, 0, 0)
  /\ (exists k, parse_version "3.11.0" = Some k)
  /\ exists r, version_compare "invalid" "3.11.0" = Some r
               /\ -1 <= r <= 1
               /\ (r = 1 <-> 3 = 0 /\ 11 = 0 /\ 0 = 0 /\ 0 < 0).
Proof.
  destruct malformed_input_key as [_ [H2 [H3 H4]]].
  assert (Hz : ~ version_shaped "invalid").
  { intros Hs. apply version_shaped_scan in Hs. destruct Hs as [x Hx].
    discriminate Hx. }
  split; [now apply H3|]. split.
  - apply H2. vm_compute. discriminate.
  - apply (H4 "invalid" "3.11.0" 3 11 0 0 0 Hz). reflexivity.
Defined.

End Malformed.

(** ** Equal keys and releases *)

Module Releases.

Import Py PythonManifestParser Versions.

Lemma spells_parse (r : release) (s : pystr) :
  spells r s -> parse_version s = Some (release_key r).
Proof.
  intros H. destruct H as [M m p a b c HM Hm Hp
                          | M m p a b c hyphen st HM Hm Hp
                          | M m p n a b c k hyphen dot st HM Hm Hp Hn].
  - now apply ParseFacts.parse_core.
  - now apply ParseFacts.parse_bare.
  - now apply ParseFacts.parse_prerelease.
Qed.

Lemma stage_rank_inj (s1 s2 : stage) : stage_rank s1 = stage_rank s2 -> s1 = s2.
Proof. destruct s1, s2; cbv; congruence. Qed.

Lemma release_key_inj (r1 r2 : release) :
  numbered r1 = true -> numbered r2 = true ->
  release_key r1 = release_key r2 -> r1 = r2.
Proof.
  destruct r1 as [a1 b1 c1 [[s1 [k1|]]|]], r2 as [a2 b2 c2 [[s2 [k2|]]|]];
    unfold numbered, release_key; cbn [r_pre r_major r_minor r_patch];
    try discriminate; intros _ _ H; injection H; intros; subst.
  - assert (s1 = s2) by (apply stage_rank_inj; lia).
    assert (k1 = k2) by lia. now subst.
  - pose proof (KeyOrder.stage_rank_pos s1). lia.
  - pose proof (KeyOrder.stage_rank_pos s2). lia.
  - reflexivity.
Qed.

Lemma tuple_lt_irrefl (a : list Z) : tuple_lt a a = false.
Proof.
  induction a as [|x a IH]; [reflexivity|]. cbn [tuple_lt].
  now rewrite Z.eqb_refl.
Qed.

Lemma tuple_lt_connex (a b : list Z) :
  List.length a = List.length b ->
  tuple_lt a b = false -> tuple_lt b a = false -> a = b.
Proof.
  revert b. induction a as [|x a IH]; intros [|y b] Hl; try discriminate.
  - reflexivity.
  - cbn [tuple_lt]. injection Hl as Hl.
    destruct (Z.eqb_spec x y) as [->|Hxy].
    + rewrite Z.eqb_refl. intros H1 H2. f_equal. now apply IH.
    + destruct (Z.eqb_spec y x); [congruence|].
      intros H1 H2. apply Z.ltb_ge in H1, H2. lia.
Qed.

Lemma tuple_lt_asym (a b : list Z) :
  tuple_lt a b = true -> tuple_lt b a = false.
Proof.
  revert b. induction a as [|x a IH]; intros [|y b]; cbn [tuple_lt];
    try congruence.
  destruct (Z.eqb_spec x y) as [->|Hxy].
  - rewrite Z.eqb_refl. apply IH.
  - destruct (Z.eqb_spec y x); [congruence|].
    intros H. apply Z.ltb_lt in H. apply Z.ltb_ge. lia.
Qed.

Lemma items_inj (k1 k2 : VersionKey) : items k1 = items k2 -> k1 = k2.
Proof.
  destruct k1 as [[[[a1 b1] c1] d1] e1], k2 as [[[[a2 b2] c2] d2] e2].
  cbn [items]. congruence.
Qed.

Lemma compare_zero_iff (x y : pystr) (kx ky : VersionKey) :
  parse_version x = Some kx -> parse_version y = Some ky ->
  version_compare x y = Some 0 <-> kx = ky.
Proof.
  intros Hx Hy. rewrite (KeyOrder.version_compare_keys _ _ _ _ Hx Hy).
  unfold tuple_gt. split.
  - intros H. apply items_inj. apply tuple_lt_connex.
    + now destruct kx as [[[[? ?] ?] ?] ?], ky as [[[[? ?] ?] ?] ?].
    + destruct (tuple_lt (items kx) (items ky)) eqn:E; [|reflexivity].
      rewrite (tuple_lt_asym _ _ E) in H. discriminate H.
    + destruct (tuple_lt (items ky) (items kx)) eqn:E; [|reflexivity].
      rewrite (tuple_lt_asym _ _ E) in H. discriminate H.
  - intros ->. now rewrite tuple_lt_irrefl.
Qed.

(** C7, as stated, fails: 3.11.0 and 3.11.0-rc are lexically different, the
    first spells the stable release 3.11.0 and the second its rc
    pre-release, and [parse_version] gives both the key (3, 11, 0, 0, 0). *)
Lemma stable_and_bare_rc_share_a_key :
  spells {| r_major := 3; r_minor := 11; r_patch := 0; r_pre := None |}
         "3.11.0"
  /\ spells {| r_major := 3; r_minor := 11; r_patch := 0;
               r_pre := Some (SRc, None) |} "3.11.0-rc"
  /\ is_stable "3.11.0" = true /\ is_rc "3.11.0-rc" = true
  /\ str "3.11.0" <> str "3.11.0-rc"
  /\ parse_version "3.11.0" = parse_version "3.11.0-rc"
  /\ version_compare "3.11.0" "3.11.0-rc" = Some 0.
Proof.
  split; [|split; [|repeat split; try reflexivity; discriminate]].
  - exact (spells_stable "3" "11" "0" 3 11 0 eq_refl eq_refl eq_refl).
  - exact (spells_bare "3" "11" "0" 3 11 0 true SRc eq_refl eq_refl eq_refl).
Qed.

(** C7, as amended.  Among the version strings MAJOR.MINOR.PATCH and
    MAJOR.MINOR.PATCH followed by a stage (alpha, beta, rc; hyphen optional)
    and a sub-ordinal (dot optional), two strings have equal keys exactly
    when they denote the same release: the same three numbers, the same
    stage and the same sub-ordinal, as with rc.1 and rc1.  And
    [version_compare] looks at its arguments only through their keys. *)
Theorem equal_keys_same_release :
  (forall r1 r2 s1 s2,
      spells r1 s1 -> spells r2 s2 ->
      numbered r1 = true -> numbered r2 = true ->
      (parse_version s1 = parse_version s2 <-> r1 = r2)
      /\ (version_compare s1 s2 = Some 0 <-> r1 = r2))
  /\ (forall x x' y y',
      parse_version x = parse_version x' ->
      parse_version y = parse_version y' ->
      version_compare x y = version_compare x' y').
Proof.
  split.
  - intros r1 r2 s1 s2 H1 H2 N1 N2.
    pose proof (spells_parse _ _ H1) as K1.
    pose proof (spells_parse _ _ H2) as K2.
    rewrite (compare_zero_iff _ _ _ _ K1 K2), K1, K2. split; split.
    + intros H. injection H as H. now apply release_key_inj.
    + now intros ->.
    + now apply release_key_inj.
    + now intros ->.
  - intros x x' y y' Hx Hy. unfold version_compare. now rewrite Hx, Hy.
Qed.

(** C7 at three spellings of 3.9.0 rc 1. *)
Lemma equal_keys_same_release_witness :
  parse_version "3.9.0-rc.1" = parse_version "3.9.0rc1"
  /\ version_compare "3.9.0-rc.1" "3.9.0-rc1" = Some 0.
Proof.
  destruct equal_keys_same_release as [H _].
  pose (r := {| r_major := 3; r_minor := 9; r_patch := 0;
                r_pre := Some (SRc, Some 1) |}).
  assert (Ha : spells r "3.9.0-rc.1")
    by exact (spells_numbered "3" "9" "0" "1" 3 9 0 1 true true SRc
                eq_refl eq_refl eq_refl eq_refl).
  assert (Hb : spells r "3.9.0rc1")
    by exact (spells_numbered "3" "9" "0" "1" 3 9 0 1 false false SRc
                eq_refl eq_refl eq_refl eq_refl).
  assert (Hc : spells r "3.9.0-rc1")
    by exact (spells_numbered "3" "9" "0" "1" 3 9 0 1 true false SRc
                eq_refl eq_refl eq_refl eq_refl).
  split.
  - apply (H r r _ _ Ha Hb eq_refl eq_refl). reflexivity.
  - apply (H r r _ _ Ha Hc eq_refl eq_refl). reflexivity.
Defined.

End Releases.

(** ** Glob filters *)

Module Glob.

Import Py Re PythonManifestParser Versions.

Lemma special_not_alnum (c : ascii) :
  is_special c = true -> isalnum_ascii c = false.
Proof.
  destruct c as [[] [] [] [] [] [] [] []]; intros H;
    solve [reflexivity | discriminate H].
Qed.

Lemma plain_char (c : ascii) :
  is_special c = false ->
  chr_eqb c "\" = false /\ chr_eqb c "*" = false /\ chr_eqb c "." = false
  /\ is_meta c = false.
Proof.
  destruct c as [[] [] [] [] [] [] [] []]; intros H;
    solve [repeat split; reflexivity | discriminate H].
Qed.

Lemma special_star : is_special "*" = true.
Proof. reflexivity. Qed.

Lemma special_backslash : is_special "\" = true.
Proof. reflexivity. Qed.

(** An escaped pattern never starts with a star. *)
Lemma escape_head (p : pystr) :
  match escape p with
  | [] => True
  | d :: _ => chr_eqb "*" d = false
  end.
Proof.
  destruct p as [|c p]; [exact I|].
  unfold escape. cbn [flat_map]. unfold escape_char.
  destruct (is_special c) eqn:E; cbn [app].
  - reflexivity.
  - destruct (chr_eqb "*" c) eqn:E'; [|reflexivity].
    apply PyFacts.chr_eqb_eq in E'. subst c. discriminate E.
Qed.

Lemma replace_from_here (old new : pystr) (c : ascii) (s : pystr) :
  replace_from old new 0 (c :: s) =
  if startswith (c :: s) old
  then new ++ replace_from old new (Nat.pred (List.length old)) s
  else c :: replace_from old new 0 s.
Proof. reflexivity. Qed.

Lemma replace_from_skip (old new : pystr) (k : nat) (c : ascii) (s : pystr) :
  replace_from old new (S k) (c :: s) = replace_from old new k s.
Proof. reflexivity. Qed.

Lemma startswith_two (a b c : ascii) (s : pystr) :
  startswith (c :: s) [a; b] =
  chr_eqb a c && match s with
                 | [] => false
                 | d :: _ => chr_eqb b d
                 end.
Proof.
  cbn [startswith]. destruct s as [|d s]; [reflexivity|].
  now rewrite andb_true_r.
Qed.

Lemma replace_escape (p : pystr) :
  replace_from (str "\*") (str ".*") 0 (escape p) = flat_map glob_char p.
Proof.
  unfold escape. cbn [str list_ascii_of_string].
  induction p as [|c p IH]; [reflexivity|].
  cbn [flat_map]. unfold glob_char at 1.
  change (escape_char c) with (if is_special c then ["\"%char; c] else [c]).
  pose proof (escape_head p) as Hh. unfold escape in Hh.
  destruct (chr_eqb c "*") eqn:Es.
  - apply PyFacts.chr_eqb_eq in Es. subst c. rewrite special_star.
    cbn [app]. rewrite replace_from_here, startswith_two.
    rewrite !PyFacts.chr_eqb_refl. cbn [andb List.length Nat.pred].
    rewrite replace_from_skip, IH. reflexivity.
  - assert (Es' : chr_eqb "*" c = false)
      by (unfold chr_eqb in *; now rewrite Ascii.eqb_sym).
    destruct (is_special c) eqn:E.
    + cbn [app]. rewrite replace_from_here, startswith_two, Es', andb_false_r.
      rewrite replace_from_here, startswith_two.
      replace (chr_eqb "\" c && _) with false; [now rewrite IH|].
      destruct (flat_map escape_char p) as [|d rest].
      * now rewrite andb_false_r.
      * now rewrite Hh, andb_false_r.
    + destruct (plain_char c E) as [Hb _].
      assert (Hb' : chr_eqb "\" c = false)
        by (unfold chr_eqb in *; now rewrite Ascii.eqb_sym).
      cbn [app]. rewrite replace_from_here, startswith_two, Hb'.
      cbn [andb]. now rewrite IH.
Qed.

Lemma glob_regex_chars (p : pystr) : glob_regex p = flat_map glob_char p.
Proof. apply replace_escape. Qed.

Lemma tokens_here (c : ascii) (s : pystr) :
  tokens false (c :: s) =
  if chr_eqb c "\" then tokens true s
  else if chr_eqb c "*" then ts <- tokens false s ;; Some (TStar :: ts)
  else if chr_eqb c "." then ts <- tokens false s ;; Some (TAtom dot :: ts)
  else if is_meta c then None
  else ts <- tokens false s ;; Some (TAtom (lit c) :: ts).
Proof. reflexivity. Qed.

Lemma tokens_escaped (c : ascii) (s : pystr) :
  tokens true (c :: s) =
  if isalnum_ascii c then None
  else ts <- tokens false s ;; Some (TAtom (lit c) :: ts).
Proof. reflexivity. Qed.

Lemma tokens_glob (p : pystr) :
  tokens false (flat_map glob_char p) = Some (flat_map glob_tokens p).
Proof.
  induction p as [|c p IH]; [reflexivity|].
  cbn [flat_map]. unfold glob_char at 1, glob_tokens at 1, escape_char.
  destruct (chr_eqb c "*") eqn:Es.
  - cbn [str list_ascii_of_string app].
    rewrite tokens_here. cbn [chr_eqb Ascii.eqb Bool.eqb andb].
    rewrite tokens_here. cbn [chr_eqb Ascii.eqb Bool.eqb andb].
    now rewrite IH.
  - destruct (is_special c) eqn:E.
    + cbn [app]. rewrite tokens_here, PyFacts.chr_eqb_refl, tokens_escaped.
      now rewrite (special_not_alnum c E), IH.
    + destruct (plain_char c E) as [H1 [H2 [H3 H4]]].
      cbn [app]. now rewrite tokens_here, H1, H2, H3, H4, IH.
Qed.

Lemma glob_tokens_head (p : pystr) :
  match flat_map glob_tokens p with
  | TStar :: _ => False
  | _ => True
  end.
Proof.
  destruct p as [|c p]; [exact I|]. cbn [flat_map]. unfold glob_tokens at 1.
  now destruct (chr_eqb c "*").
Qed.

Lemma build_glob (p : pystr) :
  build (flat_map glob_tokens p) = Some (glob_re p).
Proof.
  induction p as [|c p IH]; [reflexivity|].
  cbn [flat_map glob_re]. unfold glob_tokens at 1.
  destruct (chr_eqb c "*").
  - cbn [app build]. now rewrite IH.
  - cbn [app]. pose proof (glob_tokens_head p) as Hh.
    destruct (flat_map glob_tokens p) as [|[q|] ts] eqn:Et.
    + cbn [build] in *. injection IH as <-. reflexivity.
    + change (build (TAtom (lit c) :: TAtom q :: ts))
        with (r <- build (TAtom q :: ts) ;; Some (Cat (Chr (lit c)) r)).
      now rewrite IH.
    + now elim Hh.
Qed.

Lemma compile_glob (p : pystr) : compile (glob_regex p) = Some (glob_re p).
Proof.
  unfold compile. rewrite glob_regex_chars, tokens_glob. apply build_glob.
Qed.

(** The runs a greedy star can take. *)
Lemma star_go_some {A : Type} (q : ascii -> bool) (k : pystr -> option A) (s : pystr) :
  star_go q k s <> None <->
  exists w r, s = w ++ r /\ forallb q w = true /\ k r <> None.
Proof.
  induction s as [|c s IH]; cbn [star_go].
  - split.
    + intros H. now exists [], [].
    + intros [w [r [E [_ H]]]]. symmetry in E.
      apply app_eq_nil in E. destruct E as [_ ->]. exact H.
  - destruct (q c) eqn:Hc.
    + split.
      * intros H. destruct (star_go q k s) eqn:Es.
        -- destruct IH as [IH _].
           destruct IH as [w [r [-> [Hw Hk]]]]; [discriminate|].
           exists (c :: w), r. cbn [forallb app]. now rewrite Hc.
        -- exists [], (c :: s). now split.
      * intros [w [r [E [Hw Hk]]]]. destruct w as [|d w].
        -- cbn [app] in E. subst r.
           destruct (star_go q k s); [discriminate|exact Hk].
        -- injection E as <- ->. cbn [forallb] in Hw.
           apply andb_true_iff in Hw. destruct Hw as [_ Hw].
           assert (H : star_go q k (w ++ r) <> None)
             by (apply IH; now exists w, r).
           destruct (star_go q k (w ++ r)); [discriminate | now elim H].
    + split.
      * intros H. exists [], (c :: s). now split.
      * intros [w [r [E [Hw Hk]]]]. destruct w as [|d w].
        -- cbn [app] in E. now subst r.
        -- injection E as <- ->. cbn [forallb] in Hw. now rewrite Hc in Hw.
Qed.

Lemma dot_forall (w : pystr) :
  forallb dot w = true <-> Forall (fun c => c <> "010"%char) w.
Proof.
  rewrite forallb_forall, Forall_forall. unfold dot.
  split; intros H c Hc; specialize (H c Hc).
  - apply negb_true_iff, PyFacts.chr_eqb_neq in H. congruence.
  - apply negb_true_iff, PyFacts.chr_eqb_neq. congruence.
Qed.

Lemma go_Cat_Star {A : Type} (q : ascii -> bool) (r : regex) (s : pystr)
    (g : groups) (k : pystr -> groups -> option A) :
  go (Cat (Star q) r) s g k = star_go q (fun s' => go r s' g k) s.
Proof. reflexivity. Qed.

(** The matcher on a glob: what it can consume before the continuation. *)
Lemma go_glob {A : Type} (p s : pystr) (g : groups) (k : pystr -> groups -> option A) :
  go (glob_re p) s g k <> None <->
  exists v r, s = v ++ r /\ glob_matches p v /\ k r g <> None.
Proof.
  revert s. induction p as [|c p IH]; intros s; cbn [glob_re].
  - cbn [go]. split.
    + intros H. exists [], s. repeat split; [constructor | exact H].
    + intros [v [r [-> [Hv H]]]]. inversion Hv. exact H.
  - destruct (chr_eqb c "*") eqn:Es.
    + apply PyFacts.chr_eqb_eq in Es. subst c.
      rewrite go_Cat_Star, star_go_some. split.
      * intros [w [r [-> [Hw H]]]]. apply IH in H.
        destruct H as [v [r' [-> [Hv H]]]].
        exists (w ++ v), r'. rewrite app_assoc. repeat split; [|exact H].
        constructor; [now apply dot_forall | exact Hv].
      * intros [v [r [-> [Hv H]]]]. inversion Hv as [|? ? ? Hn|? w v' Hw Hv']; subst.
        -- now elim Hn.
        -- exists w, (v' ++ r). rewrite app_assoc.
           repeat split; [now apply dot_forall|].
           apply IH. now exists v', r.
    + apply PyFacts.chr_eqb_neq in Es.
      rewrite ReFacts.go_Cat_Chr. split.
      * destruct s as [|d s]; [intros H; now elim H|].
        destruct (chr_eqb c d) eqn:Ed; [|intros H; now elim H].
        apply PyFacts.chr_eqb_eq in Ed. subst d. intros H. apply IH in H.
        destruct H as [v [r [-> [Hv H]]]].
        exists (c :: v), r. repeat split; [|exact H]. now constructor.
      * intros [v [r [-> [Hv H]]]]. inversion Hv as [|? ? v' Hn Hv'|]; subst.
        -- cbn [app]. rewrite PyFacts.chr_eqb_refl. apply IH. now exists v', r.
        -- now elim Es.
Qed.

Lemma fullmatch_glob (p v : pystr) :
  fullmatch (glob_re p) v <> None <-> glob_matches p v.
Proof.
  unfold fullmatch. rewrite go_glob. split.
  - intros [w [r [-> [Hw H]]]]. destruct r; [|now elim H].
    now rewrite app_nil_r.
  - intros H. exists v, []. rewrite app_nil_r. repeat split; [exact H | discriminate].
Qed.

(** C8.  The regular expression of a glob is the pattern with every
    character other than [*] escaped and [.*] put for each [*];
    [version_matches_filter] raises on no pattern and answers true exactly
    when the whole version string matches the glob, [*] standing for any
    run of characters without a line feed; and 3.13.5 matches 3.13.* and
    3.*.5 but neither 3.12.* nor 3.*.6. *)
Theorem glob_is_escaped_fullmatch :
  (forall pattern, glob_regex pattern = flat_map glob_char pattern)
  /\ (forall c,
        glob_char c = if Ascii.eqb c "*" then str ".*" else escape_char c)
  /\ (forall version pattern,
        exists b, version_matches_filter version pattern = Some b
                  /\ (b = true <-> glob_matches pattern version))
  /\ version_matches_filter "3.13.5" "3.13.*" = Some true
  /\ version_matches_filter "3.13.5" "3.*.5" = Some true
  /\ version_matches_filter "3.13.5" "3.12.*" = Some false
  /\ version_matches_filter "3.13.5" "3.*.6" = Some false.
Proof.
  split; [apply glob_regex_chars|].
  split; [reflexivity|].
  split; [|repeat split; reflexivity].
  intros version pattern. unfold version_matches_filter, fullmatch_str.
  rewrite compile_glob. eexists. split; [reflexivity|].
  rewrite <- fullmatch_glob.
  destruct (fullmatch (glob_re pattern) version); split; congruence.
Qed.

End Glob.

(** ** [filter_versions] *)

Module Filtering.

Import Py PythonManifestParser.



(** The loop as a filter: the versions kept, in manifest order. *)
Lemma loop_flat_map (ia ib ir ist : bool) (m : list Entry) (acc : list pystr) :
  fold_left (loop_body ia ib ir ist) m acc
  = acc ++ flat_map (fun e => loop_body ia ib ir ist [] e) m.
Proof.
  revert acc. induction m as [|e m IH]; intros acc; cbn [fold_left flat_map].
  - now rewrite app_nil_r.
  - rewrite IH, app_assoc. f_equal. unfold loop_body.
    destruct (version e) as [[|c v]|]; try now rewrite app_nil_r.
    destruct (release_branch ia ib ir ist (c :: v)); [reflexivity|].
    now rewrite app_nil_r.
Qed.



End Filtering.

(** ** [validate_download_url] *)

Module Urls.

Import Py PartialManifest.

Lemma lstrip_nil (s : pystr) : lstrip s = [] -> forallb isspace s = true.
Proof.
  induction s as [|c s IH]; [reflexivity|]. cbn [lstrip forallb].
  destruct (isspace c); [exact IH | discriminate].
Qed.

Lemma lstrip_keeps (c : ascii) (s : pystr) :
  isspace c = false -> lstrip (c :: s) = c :: s.
Proof. intros H. cbn [lstrip]. now rewrite H. Qed.

(** A string with a character that is no white space does not strip to the
    empty string. *)
Lemma strip_not_empty (c : ascii) (s : pystr) :
  isspace c = false -> falsy (strip (c :: s)) = false.
Proof.
  intros H. unfold strip. rewrite (lstrip_keeps c s H).
  destruct (lstrip (rev (c :: s))) as [|d r] eqn:E.
  - apply lstrip_nil in E. rewrite forallb_forall in E.
    assert (Hin : In c (rev (c :: s))) by (apply in_rev; rewrite rev_involutive; now left).
    apply E in Hin. congruence.
  - destruct (rev (d :: r)) eqn:E'; [|reflexivity].
    apply (f_equal (@rev ascii)) in E'. rewrite rev_involutive in E'.
    discriminate E'.
Qed.

Lemma base_starts_https (owner repo : pystr) (url : pystr) :
  startswith url (releases_base owner repo) = true ->
  startswith url "https://github.com/" = true.
Proof.
  intros H. apply PyFacts.startswith_iff in H. destruct H as [r ->].
  unfold releases_base. rewrite <- !app_assoc. apply PyFacts.startswith_app.
Qed.

(** The check is the prefix test alone; [tag] and [filename] are not
    looked at. *)
Lemma validate_is_prefix_test (url owner repo tag filename : pystr) :
  validate_download_url url owner repo tag filename
  = startswith url (releases_base owner repo).
Proof.
  unfold validate_download_url.
  destruct (startswith url (releases_base owner repo)) eqn:E.
  - rewrite (base_starts_https owner repo url E).
    apply PyFacts.startswith_iff in E. destruct E as [r ->].
    unfold releases_base. rewrite <- !app_assoc.
    cbn [str list_ascii_of_string app falsy].
    now rewrite strip_not_empty.
  - cbn [negb]. destruct (falsy url || falsy (strip url)); [reflexivity|].
    now destruct (negb (startswith url "https://github.com/")).
Qed.

(** C3, as stated, fails: an "untagged-" URL under the owner's and
    repository's release path is accepted, and so is a URL with another
    tag. *)
Lemma untagged_url_accepted :
  validate_download_url
    "https://github.com/IBM/python-versions-pz/releases/download/untagged-abc123/python-3.13.3-linux-22.04-ppc64le.tar.gz"
    "IBM" "python-versions-pz" "3.13.3"
    "python-3.13.3-linux-22.04-ppc64le.tar.gz" = true
  /\ validate_download_url
    "https://github.com/IBM/python-versions-pz/releases/download/3.12.0/python-3.13.3-linux-22.04-ppc64le.tar.gz"
    "IBM" "python-versions-pz" "3.13.3"
    "python-3.13.3-linux-22.04-ppc64le.tar.gz" = true.
Proof. split; reflexivity. Qed.

(** C3, as amended.  [validate_download_url] returns true exactly for the
    URLs that start with
    https://github.com/{owner}/{repo}/releases/download/ ; the tag and the
    file name do not enter the check, and the URL rebuilt from owner,
    repository, tag and file name is among the accepted ones. *)
Theorem validate_download_url_checks_base_only :
  (forall url owner repo tag filename,
      validate_download_url url owner repo tag filename = true <->
      exists rest, url = str "https://github.com/" ++ owner ++ str "/" ++ repo
                         ++ str "/releases/download/" ++ rest)
  /\ (forall url owner repo tag tag' filename filename',
      validate_download_url url owner repo tag filename
      = validate_download_url url owner repo tag' filename')
  /\ (forall owner repo tag filename,
      validate_download_url (final_url owner repo tag filename)
        owner repo tag filename = true).
Proof.
  split; [|split].
  - intros url owner repo tag filename.
    rewrite validate_is_prefix_test, PyFacts.startswith_iff.
    unfold releases_base. split; intros [rest ->]; exists rest;
      now rewrite <- ?app_assoc.
  - intros. now rewrite !validate_is_prefix_test.
  - intros. rewrite validate_is_prefix_test. unfold final_url.
    apply PyFacts.startswith_app.
Qed.

(** An asset served under an "untagged-" URL is kept, with the URL rebuilt
    from owner, repository, tag and file name. *)
Example untagged_asset_is_rebuilt :
  build_manifest_entries "3.13.3"
    [ {| name := "python-3.13.3-linux-22.04-ppc64le.tar.gz";
         browser_download_url :=
           "https://github.com/IBM/python-versions-pz/releases/download/untagged-abc123/python-3.13.3-linux-22.04-ppc64le.tar.gz" |} ]
    "IBM" "python-versions-pz"
  = ([ {| mp_version := "3.13.3";
          mp_filename := "python-3.13.3-linux-22.04-ppc64le.tar.gz";
          mp_arch := "ppc64le";
          mp_platform := "linux";
          mp_platform_version := "22.04";
          mp_download_url :=
            "https://github.com/IBM/python-versions-pz/releases/download/3.13.3/python-3.13.3-linux-22.04-ppc64le.tar.gz" |} ],
     []).
Proof. reflexivity. Qed.

End Urls.

(** ** Asset file names *)

Module AssetNames.

Import Py PartialManifest.

Lemma split_nonempty (sep : ascii) (s : pystr) : split sep s <> [].
Proof.
  destruct s as [|c s]; cbn [split]; [discriminate|].
  destruct (chr_eqb c sep); [discriminate|].
  destruct (split sep s); discriminate.
Qed.

Lemma join_cons (sep f g : pystr) (l : list pystr) :
  join sep (f :: g :: l) = f ++ sep ++ join sep (g :: l).
Proof. reflexivity. Qed.

(** Joining the fields with the separator gives the string back. *)
Lemma join_split (sep : ascii) (s : pystr) : join [sep] (split sep s) = s.
Proof.
  induction s as [|c s IH]; [reflexivity|]. cbn [split].
  pose proof (split_nonempty sep s) as Hne.
  destruct (split sep s) as [|f fs]; [now elim Hne|].
  destruct (chr_eqb c sep) eqn:E.
  - apply PyFacts.chr_eqb_eq in E. subst c.
    now rewrite join_cons, IH.
  - destruct fs as [|f' fs].
    + cbn [join] in *. now rewrite IH.
    + rewrite join_cons in *. now rewrite <- app_comm_cons, IH.
Qed.

(** No field contains the separator. *)
Lemma split_fields (sep : ascii) (s : pystr) :
  Forall (fun f => ~ In sep f) (split sep s).
Proof.
  induction s as [|c s IH]; cbn [split].
  - constructor; [intros [] | constructor].
  - destruct (chr_eqb c sep) eqn:E.
    + constructor; [intros [] | exact IH].
    + apply PyFacts.chr_eqb_neq in E.
      destruct (split sep s) as [|f fs].
      * constructor; [|constructor]. intros [H|[]]. congruence.
      * inversion IH as [|? ? Hf Hfs]; subst. constructor; [|exact Hfs].
        intros [H|H]; [congruence | now apply Hf].
Qed.

(** One field more than there are separators. *)
Lemma split_length (sep : ascii) (s : pystr) :
  List.length (split sep s) = S (count_occ ascii_dec s sep).
Proof.
  induction s as [|c s IH]; [reflexivity|]. cbn [split count_occ].
  destruct (chr_eqb c sep) eqn:E.
  - apply PyFacts.chr_eqb_eq in E. subst c.
    destruct (ascii_dec sep sep); [|congruence]. cbn [List.length]. now rewrite IH.
  - apply PyFacts.chr_eqb_neq in E.
    destruct (ascii_dec c sep); [congruence|].
    destruct (split sep s); [discriminate IH | exact IH].
Qed.

Lemma skipn_prefix (p r : pystr) : skipn (List.length p) (p ++ r) = r.
Proof. induction p as [|c p IH]; [reflexivity | exact IH]. Qed.

Lemma first_match_later (test : pystr -> bool) (p : pystr)
    (known : list pystr) (x : pystr) :
  test p = false -> first_match test known x -> first_match test (p :: known) x.
Proof.
  intros Hp [[before [after [-> [Hx Hb]]]]|[-> Hn]].
  - left. exists (p :: before), after. split; [reflexivity|].
    split; [exact Hx|]. intros q [<-|Hq]; [exact Hp | now apply Hb].
  - right. split; [reflexivity|]. intros q [<-|Hq]; [exact Hp | now apply Hn].
Qed.

(** The first loop takes off the first known prefix the name starts with. *)
Lemma strip_prefix_spec (prefixes : list pystr) (c : pystr) :
  exists pre, c = pre ++ strip_prefix prefixes c
              /\ (pre = [] \/ In pre prefixes)
              /\ first_match (startswith c) prefixes pre.
Proof.
  induction prefixes as [|p ps IH]; cbn [strip_prefix].
  - exists []. split; [reflexivity|]. split; [now left|].
    right. split; [reflexivity | intros q []].
  - destruct (startswith c p) eqn:E.
    + pose proof E as E'.
      apply PyFacts.startswith_iff in E. destruct E as [r ->].
      exists p. rewrite skipn_prefix. split; [reflexivity|].
      split; [right; now left|].
      left. exists [], ps. split; [reflexivity|]. split; [exact E'|].
      intros q [].
    + destruct IH as [pre [H1 [H2 H3]]]. exists pre. split; [exact H1|].
      split; [destruct H2; [now left | right; now right]|].
      now apply first_match_later.
Qed.

(** The second loop takes off the first known suffix the rest ends with. *)
Lemma strip_suffix_spec (suffixes : list pystr) (c : pystr) :
  exists suf, c = strip_suffix suffixes c ++ suf
              /\ (suf = [] \/ In suf suffixes)
              /\ first_match (endswith c) suffixes suf.
Proof.
  induction suffixes as [|p ps IH]; cbn [strip_suffix].
  - exists []. rewrite app_nil_r. split; [reflexivity|]. split; [now left|].
    right. split; [reflexivity | intros q []].
  - destruct (endswith c p) eqn:E.
    + pose proof E as E'.
      apply PyFacts.endswith_iff in E. destruct E as [a ->].
      exists p. fold (Re.consumed (a ++ p) p). rewrite ReFacts.consumed_app.
      split; [reflexivity|]. split; [right; now left|].
      left. exists [], ps. split; [reflexivity|]. split; [exact E'|].
      intros q [].
    + destruct IH as [suf [H1 [H2 H3]]]. exists suf. split; [exact H1|].
      split; [destruct H2; [now left | right; now right]|].
      now apply first_match_later.
Qed.

(** C9.  [parse_filename] takes one known prefix and one known suffix off
    the name: the first of python- and trivy-python- that the name starts
    with, and then the first of .tar.gz, .sbom.json, .json and .log that
    the rest ends with, and nothing where none matches.  It splits what is
    left on the hyphen, returns [None] when that gives fewer than four
    fields and otherwise the first four fields as version, platform,
    platform version and architecture; the fields joined by hyphens are the
    stripped name, none of them holds a hyphen and there is one more of
    them than hyphens in the stripped name.
    python-3.13.3-linux-22.04-ppc64le.tar.gz gives 3.13.3, linux,
    22.04, ppc64le, and python-3.13.3-linux.tar.gz gives [None]; of
    trivy-python-3.13.3-linux-22.04-ppc64le.sbom.json the second prefix and
    the second suffix are taken off. *)
Theorem parse_filename_fields :
  (forall filename,
      exists pre suf,
        filename = pre ++ strip_known_wrappers filename ++ suf
        /\ (pre = [] \/ In pre PREFIXES) /\ (suf = [] \/ In suf SUFFIXES)
        /\ first_match (startswith filename) PREFIXES pre
        /\ first_match (endswith (strip_known_wrappers filename ++ suf))
             SUFFIXES suf)
  /\ (forall filename,
      let parts := split "-" (strip_known_wrappers filename) in
      join (str "-") parts = strip_known_wrappers filename
      /\ Forall (fun f => ~ In "-"%char f) parts
      /\ List.length parts
         = S (count_occ ascii_dec (strip_known_wrappers filename) "-"%char)
      /\ parse_filename filename =
         match parts with
         | v :: pl :: pv :: ar :: _ =>
             Some {| p_version := v; p_platform := pl;
                     p_platform_version := pv; p_arch := ar |}
         | _ => None
         end
      /\ (parse_filename filename = None <-> (List.length parts < 4)%nat))
  /\ parse_filename "python-3.13.3-linux-22.04-ppc64le.tar.gz"
     = Some {| p_version := "3.13.3"; p_platform := "linux";
               p_platform_version := "22.04"; p_arch := "ppc64le" |}
  /\ parse_filename "python-3.13.3-linux.tar.gz" = None
  /\ strip_known_wrappers "trivy-python-3.13.3-linux-22.04-ppc64le.sbom.json"
     = str "3.13.3-linux-22.04-ppc64le"
  /\ parse_filename "trivy-python-3.13.3-linux-22.04-ppc64le.sbom.json"
     = Some {| p_version := "3.13.3"; p_platform := "linux";
               p_platform_version := "22.04"; p_arch := "ppc64le" |}.
Proof.
  split; [|split; [|repeat split; reflexivity]].
  - intros filename. unfold strip_known_wrappers.
    destruct (strip_prefix_spec PREFIXES filename) as [pre [H1 [H2 F1]]].
    destruct (strip_suffix_spec SUFFIXES (strip_prefix PREFIXES filename))
      as [suf [H3 [H4 F2]]].
    exists pre, suf. rewrite <- H3. auto.
  - intros filename parts. split; [apply join_split|].
    split; [apply split_fields|].
    split; [apply split_length|].
    unfold parse_filename. fold parts.
    destruct parts as [|v [|pl [|pv [|ar rest]]]]; cbn; split;
      try reflexivity; split; (lia || discriminate || reflexivity).
Qed.

End AssetNames.

(** ** [version_compare] as an order *)

Module OrderFacts.

Import Py PythonManifestParser.

Lemma tuple_lt_trans (a b c : list Z) :
  tuple_lt a b = true -> tuple_lt b c = true -> tuple_lt a c = true.
Proof.
  revert b c. induction a as [|x a IH]; intros [|y b] [|z c];
    cbn [tuple_lt]; try congruence.
  destruct (Z.eqb_spec x y) as [->|Hxy].
  - destruct (Z.eqb_spec y z) as [->|Hyz]; [apply IH | trivial].
  - destruct (Z.eqb_spec y z) as [->|Hyz].
    + destruct (Z.eqb_spec x z); [congruence | trivial].
    + intros H1 H2. apply Z.ltb_lt in H1, H2.
      destruct (Z.eqb_spec x z); [lia | apply Z.ltb_lt; lia].
Qed.

(** On tuples of one length, "not smaller" is transitive. *)
Lemma tuple_ge_trans (a b c : list Z) :
  List.length a = List.length b -> List.length b = List.length c ->
  tuple_lt a b = false -> tuple_lt b c = false -> tuple_lt a c = false.
Proof.
  intros L1 L2 H1 H2. destruct (tuple_lt a c) eqn:E; [|reflexivity].
  destruct (tuple_lt b a) eqn:E'.
  - rewrite (tuple_lt_trans b a c E' E) in H2. discriminate.
  - rewrite (Releases.tuple_lt_connex a b L1 H1 E') in E. congruence.
Qed.

Lemma items_length (k : VersionKey) : List.length (items k) = 5%nat.
Proof. now destruct k as [[[[? ?] ?] ?] ?]. Qed.

(** A comparison answers exactly when both its arguments have a key. *)
Lemma compare_parses (a b : pystr) (r : Z) :
  version_compare a b = Some r ->
  exists ka kb, parse_version a = Some ka /\ parse_version b = Some kb.
Proof.
  unfold version_compare.
  destruct (parse_version a) as [ka|]; [|discriminate].
  destruct (parse_version b) as [kb|]; [|discriminate]. eauto.
Qed.

Lemma compare_none (a b : pystr) :
  version_compare a b = None
  <-> parse_version a = None \/ parse_version b = None.
Proof.
  unfold version_compare.
  destruct (parse_version a) as [ka|]; [|now split; auto].
  destruct (parse_version b) as [kb|]; cbn.
  - split; [discriminate | intros [H|H]; discriminate].
  - split; auto.
Qed.

(** The result of a comparison, read on the keys. *)
Lemma compare_cases (a b : pystr) (ka kb : VersionKey) :
  parse_version a = Some ka -> parse_version b = Some kb ->
  (tuple_lt (items kb) (items ka) = true /\ tuple_lt (items ka) (items kb) = false
   /\ version_compare a b = Some 1)
  \/ (tuple_lt (items kb) (items ka) = false /\ tuple_lt (items ka) (items kb) = true
      /\ version_compare a b = Some (-1))
  \/ (ka = kb /\ version_compare a b = Some 0).
Proof.
  intros Ha Hb. rewrite (KeyOrder.version_compare_keys a b ka kb Ha Hb).
  unfold tuple_gt.
  destruct (tuple_lt (items kb) (items ka)) eqn:E1.
  - left. rewrite (Releases.tuple_lt_asym _ _ E1). auto.
  - destruct (tuple_lt (items ka) (items kb)) eqn:E2.
    + right. left. auto.
    + right. right. split; [|reflexivity]. apply Releases.items_inj.
      apply Releases.tuple_lt_connex; [|assumption|assumption].
      now rewrite !items_length.
Qed.

Lemma compare_ge_iff (a b : pystr) (ka kb : VersionKey) (r : Z) :
  parse_version a = Some ka -> parse_version b = Some kb ->
  version_compare a b = Some r ->
  (0 <= r <-> tuple_lt (items ka) (items kb) = false).
Proof.
  intros Ha Hb Hr.
  destruct (compare_cases a b ka kb Ha Hb) as [[H1 [H2 H3]]|[[H1 [H2 H3]]|[H1 H3]]];
    rewrite H3 in Hr; injection Hr as <-.
  - rewrite H2. split; [reflexivity | lia].
  - rewrite H2. split; [lia | discriminate].
  - subst kb. rewrite Releases.tuple_lt_irrefl. split; [reflexivity | lia].
Qed.

Lemma compare_flip (a b : pystr) (ka kb : VersionKey) :
  parse_version a = Some ka -> parse_version b = Some kb ->
  exists r,
    version_compare a b = Some r
    /\ version_compare b a = Some (- r)
    /\ (r = -1 \/ r = 0 \/ r = 1)
    /\ (r = 0 <-> parse_version a = parse_version b).
Proof.
  intros Ha Hb.
  destruct (compare_cases a b ka kb Ha Hb) as [[H1 [H2 H3]]|[[H1 [H2 H3]]|[H1 H3]]].
  - exists 1. rewrite H3, (KeyOrder.version_compare_keys b a kb ka Hb Ha).
    unfold tuple_gt. rewrite H1, H2, Ha, Hb.
    repeat split; auto; try lia.
    intros H. injection H as ->. rewrite Releases.tuple_lt_irrefl in H1.
    discriminate.
  - exists (-1). rewrite H3, (KeyOrder.version_compare_keys b a kb ka Hb Ha).
    unfold tuple_gt. rewrite H1, H2, Ha, Hb.
    repeat split; auto; try lia.
    intros H. injection H as ->. rewrite Releases.tuple_lt_irrefl in H2.
    discriminate.
  - subst kb. exists 0. rewrite H3, (KeyOrder.version_compare_keys b a ka ka Hb Ha).
    unfold tuple_gt. rewrite Releases.tuple_lt_irrefl, Ha, Hb.
    repeat split; auto.
Qed.

(** X1.  [version_compare] raises exactly when [parse_version] raises on one
    of its arguments, which [int] makes it do on a numeral of more than 4300
    digits, and so on no pair of strings of at most 4300 characters.  When
    it answers, the answer is -1, 0 or 1; exchanging the arguments negates
    it; and it is 0 exactly when the two keys are equal. *)
Theorem version_compare_antisymmetric (a b : pystr) :
  (version_compare a b = None
   <-> parse_version a = None \/ parse_version b = None)
  /\ (Z.of_nat (List.length a) <= max_str_digits ->
      Z.of_nat (List.length b) <= max_str_digits ->
      exists r, version_compare a b = Some r)
  /\ (forall r, version_compare a b = Some r ->
        version_compare b a = Some (- r)
        /\ (r = -1 \/ r = 0 \/ r = 1)
        /\ (r = 0 <-> parse_version a = parse_version b)).
Proof.
  split; [apply compare_none|]. split.
  - intros La Lb.
    destruct (Malformed.short_parses a La) as [ka Ha].
    destruct (Malformed.short_parses b Lb) as [kb Hb].
    destruct (compare_flip a b ka kb Ha Hb) as [r [H _]]. eauto.
  - intros r H. destruct (compare_parses a b r H) as [ka [kb [Ha Hb]]].
    destruct (compare_flip a b ka kb Ha Hb) as [r' [H' F]].
    rewrite H in H'. injection H' as <-. exact F.
Qed.

Lemma version_compare_antisymmetric_witness :
  (exists r, version_compare "3.12.0" "3.12.0-rc.1" = Some r)
  /\ version_compare "3.12.0-rc.1" "3.12.0" = Some (- 1)
  /\ (1 = 0 <-> parse_version "3.12.0" = parse_version "3.12.0-rc.1").
Proof.
  destruct (version_compare_antisymmetric "3.12.0" "3.12.0-rc.1")
    as [_ [H2 H3]].
  split; [apply H2; vm_compute; discriminate|].
  destruct (H3 1 eq_refl) as [F [_ G]]. split; [exact F | exact G].
Defined.

(** X2.  "Greater than or equal" under [version_compare] is transitive, and
    the outer pair compares equal only when both inner pairs do. *)
Theorem version_compare_transitive (a b c : pystr) (r1 r2 : Z) :
  version_compare a b = Some r1 -> version_compare b c = Some r2 ->
  0 <= r1 -> 0 <= r2 ->
  exists r3, version_compare a c = Some r3 /\ 0 <= r3
             /\ (r3 = 0 <-> r1 = 0 /\ r2 = 0).
Proof.
  intros H1 H2 G1 G2.
  destruct (compare_parses a b r1 H1) as [ka [kb [Ha Hb]]].
  destruct (compare_parses b c r2 H2) as [kb' [kc [Hb' Hc]]].
  rewrite Hb in Hb'. injection Hb' as <-.
  pose proof (proj1 (compare_ge_iff a b ka kb r1 Ha Hb H1) G1) as L1.
  pose proof (proj1 (compare_ge_iff b c kb kc r2 Hb Hc H2) G2) as L2.
  assert (L3 : tuple_lt (items ka) (items kc) = false)
    by (apply (tuple_ge_trans _ (items kb)); rewrite ?items_length; auto).
  destruct (compare_flip a c ka kc Ha Hc) as [r3 [H3 [_ [_ Z3]]]].
  exists r3. split; [exact H3|].
  pose proof (proj2 (compare_ge_iff a c ka kc r3 Ha Hc H3) L3) as G3.
  split; [exact G3|].
  destruct (compare_flip a b ka kb Ha Hb) as [r1' [H1' [_ [_ Z1]]]].
  destruct (compare_flip b c kb kc Hb Hc) as [r2' [H2' [_ [_ Z2]]]].
  rewrite H1 in H1'. injection H1' as <-. rewrite H2 in H2'. injection H2' as <-.
  rewrite Z3, Z1, Z2, Ha, Hb, Hc. split.
  - intros E. injection E as <-.
    assert (E : kb = ka).
    { apply Releases.items_inj. apply Releases.tuple_lt_connex;
        rewrite ?items_length; auto. }
    now subst kb.
  - intros [E1 E2]. congruence.
Qed.

Lemma version_compare_transitive_witness :
  exists r3, version_compare "3.13.0" "3.9.0-rc.1" = Some r3 /\ 0 <= r3
             /\ (r3 = 0 <-> 1 = 0 /\ 1 = 0).
Proof.
  apply (version_compare_transitive "3.13.0" "3.12.5" "3.9.0-rc.1" 1 1);
    solve [reflexivity | lia].
Defined.

(** X3.  Major, minor and patch are compared as numbers and before any stage:
    a version with the greater triple compares greater, whatever the stage
    parts of the two keys are. *)
Theorem numbers_decide_before_stage (x y : pystr) (a b c d e a' b' c' d' e' : Z) :
  parse_version x = Some (a, b, c, d, e) ->
  parse_version y = Some (a', b', c', d', e') ->
  a' < a \/ (a' = a /\ b' < b) \/ (a' = a /\ b' = b /\ c' < c) ->
  version_compare x y = Some 1 /\ version_compare y x = Some (-1).
Proof.
  intros Hx Hy H.
  rewrite (KeyOrder.version_compare_keys x y _ _ Hx Hy),
    (KeyOrder.version_compare_keys y x _ _ Hy Hx).
  unfold tuple_gt, items. cbn [tuple_lt].
  destruct H as [H|[[-> H]|[-> [-> H]]]].
  - destruct (Z.eqb_spec a' a); [lia|]. destruct (Z.eqb_spec a a'); [lia|].
    destruct (Z.ltb_spec a' a); [|lia]. destruct (Z.ltb_spec a a'); [lia|].
    split; reflexivity.
  - rewrite !Z.eqb_refl.
    destruct (Z.eqb_spec b' b); [lia|]. destruct (Z.eqb_spec b b'); [lia|].
    destruct (Z.ltb_spec b' b); [|lia]. destruct (Z.ltb_spec b b'); [lia|].
    split; reflexivity.
  - rewrite !Z.eqb_refl.
    destruct (Z.eqb_spec c' c); [lia|]. destruct (Z.eqb_spec c c'); [lia|].
    destruct (Z.ltb_spec c' c); [|lia]. destruct (Z.ltb_spec c c'); [lia|].
    split; reflexivity.
Qed.

Lemma numbers_decide_before_stage_witness :
  version_compare "3.10.0-alpha.1" "3.9.5" = Some 1
  /\ version_compare "3.9.5" "3.10.0-alpha.1" = Some (-1).
Proof.
  apply (numbers_decide_before_stage "3.10.0-alpha.1" "3.9.5"
           3 10 0 (-3) (-1) 3 9 5 0 0); [reflexivity | reflexivity | lia].
Defined.

End OrderFacts.

(** ** More on [parse_version] and the cues *)

Module ParseMore.

Import Py PythonManifestParser Versions Scan Listing.

Lemma shaped_head (s : pystr) :
  version_shaped s -> exists c r, s = c :: r /\ isdigit c = true.
Proof.
  intros [M [m [p [rest [HM [_ [_ ->]]]]]]].
  destruct (ParseFacts.numeral_cons M HM) as [c [r [-> Hc]]].
  exists c. eexists. split; [reflexivity | exact Hc].
Qed.

(** X4.  An input that does not start with a digit (the empty string, a
    leading [v], a leading blank) gets the zero key. *)
Theorem no_leading_digit_zero_key (s : pystr) :
  match s with [] => True | c :: _ => isdigit c = false end ->
  parse_version s = Some (0, 0, 0, 0, 0).
Proof.
  intros H. apply Malformed.parse_unshaped. intros Hs.
  destruct (shaped_head s Hs) as [c [r [-> Hc]]]. congruence.
Qed.

Lemma no_leading_digit_zero_key_witness :
  parse_version "v3.11.0" = Some (0, 0, 0, 0, 0).
Proof. apply no_leading_digit_zero_key. reflexivity. Defined.

Lemma word_cons (w : pystr) :
  word w = true -> exists c r, w = c :: r /\ Re.lower c = true.
Proof.
  destruct w as [|c r]; [discriminate|]. cbn [word forallb]. intros H.
  apply andb_true_iff in H. now exists c, r.
Qed.

Lemma lower_not_hyphen (c : ascii) : Re.lower c = true -> chr_eqb "-" c = false.
Proof.
  intros H. destruct (chr_eqb "-" c) eqn:E; [|reflexivity].
  apply PyFacts.chr_eqb_eq in E. subst c. discriminate H.
Qed.

Lemma not_digit_head (rest : pystr) (n : pystr) :
  match rest with [] => True | c :: _ => isdigit c = false end ->
  numeral n = true -> Scan.span Re.digit (n ++ rest) = (n, rest).
Proof.
  intros Hr Hn. apply ReFacts.span_run; [now apply ParseFacts.numeral_digits|].
  exact Hr.
Qed.

(** The optional part on a word, a sub-ordinal and whatever follows. *)
Lemma scan_pre_word (hyphen dot : bool) (w n rest : pystr) :
  word w = true -> numeral n = true ->
  match rest with [] => True | c :: _ => isdigit c = false end ->
  scan_pre (opt_chr hyphen "-" ++ w ++ opt_chr dot "." ++ n ++ rest)
  = Some (w, n).
Proof.
  intros Hw Hn Hr. unfold scan_pre.
  destruct (word_cons w Hw) as [c [r [-> Hc]]].
  assert (Hs : skip_chr "-" (opt_chr hyphen "-" ++ (c :: r) ++ opt_chr dot "." ++ n ++ rest)
               = (c :: r) ++ opt_chr dot "." ++ n ++ rest).
  { destruct hyphen; unfold opt_chr, skip_chr; cbn [app].
    - now rewrite PyFacts.chr_eqb_refl.
    - now rewrite (lower_not_hyphen c Hc). }
  rewrite Hs.
  rewrite (ReFacts.span_run Re.lower (c :: r)).
  - cbv beta iota.
    destruct (ParseFacts.numeral_cons n Hn) as [d [n' [En Hd]]].
    assert (Hk : skip_chr "." (opt_chr dot "." ++ n ++ rest) = n ++ rest).
    { subst n. destruct dot; unfold opt_chr, skip_chr; cbn [app].
      - now rewrite PyFacts.chr_eqb_refl.
      - destruct (chr_eqb "." d) eqn:E; [|reflexivity].
        apply PyFacts.chr_eqb_eq in E. subst d. discriminate Hd. }
    rewrite Hk, (not_digit_head rest n Hr Hn). now subst n.
  - exact Hw.
  - destruct (ParseFacts.numeral_cons n Hn) as [d [n' [-> Hd]]].
    destruct dot; cbn [opt_chr app]; [reflexivity|].
    destruct (Re.lower d) eqn:E; [|reflexivity].
    apply ReFacts.lower_not_digit in E. unfold Re.digit in E. congruence.
Qed.

Lemma word_first_not_digit (hyphen : bool) (w r : pystr) :
  word w = true ->
  match opt_chr hyphen "-" ++ w ++ r with
  | [] => True
  | c :: _ => isdigit c = false
  end.
Proof.
  intros Hw. destruct (word_cons w Hw) as [c [w' [-> Hc]]].
  destruct hyphen; cbn [opt_chr app]; [reflexivity|].
  apply ReFacts.lower_not_digit in Hc. exact Hc.
Qed.

Lemma parse_word (M m p w n rest : pystr) (a b c k : Z) (hyphen dot : bool) :
  int M = Some a -> int m = Some b -> int p = Some c -> int n = Some k ->
  word w = true ->
  match rest with [] => True | x :: _ => isdigit x = false end ->
  parse_version (core M m p ++ opt_chr hyphen "-" ++ w ++ opt_chr dot "."
                 ++ n ++ rest)
  = Some (a, b, c, - dict_get pre_order w 4, - k).
Proof.
  intros HM Hm Hp Hn Hw Hr. rewrite ParseFacts.parse_version_scan.
  rewrite ParseFacts.scan_core; eauto using ParseFacts.int_numeral.
  - rewrite scan_pre_word by (eauto using ParseFacts.int_numeral).
    unfold key_of. pose proof (ParseFacts.int_numeral n k Hn) as Hnum.
    destruct n as [|d n]; [discriminate|].
    destruct w as [|l w]; [discriminate|].
    now rewrite Hn, HM, Hm, Hp.
  - now apply word_first_not_digit.
Qed.

Lemma stage_name_word (st : stage) : word (stage_name st) = true.
Proof. now destruct st. Qed.

(** X5.  [parse_version] reads a prefix and ignores the rest: text after the
    sub-ordinal of a pre-release that does not go on with a digit, and text
    after a stable version that starts with neither a digit, a hyphen nor a
    lower-case letter, do not change the key. *)
Theorem trailing_text_ignored (M m p n rest : pystr) (a b c k : Z)
    (hyphen dot : bool) (st : stage) :
  int M = Some a -> int m = Some b -> int p = Some c -> int n = Some k ->
  (match rest with [] => True | x :: _ => isdigit x = false end ->
   parse_version (prerelease M m p hyphen st dot n ++ rest)
   = parse_version (prerelease M m p hyphen st dot n))
  /\ (match rest with
      | [] => True
      | x :: _ => isdigit x = false /\ Re.lower x = false /\ x <> "-"%char
      end ->
      parse_version (core M m p ++ rest) = parse_version (core M m p)).
Proof.
  intros HM Hm Hp Hn. split.
  - intros Hr.
    rewrite (ParseFacts.parse_prerelease M m p n a b c k hyphen dot st HM Hm Hp Hn).
    unfold prerelease, bare. rewrite <- !app_assoc.
    rewrite (parse_word M m p (stage_name st) n rest a b c k hyphen dot
               HM Hm Hp Hn (stage_name_word st) Hr).
    reflexivity.
  - intros Hr. rewrite (ParseFacts.parse_core M m p a b c HM Hm Hp).
    rewrite ParseFacts.parse_version_scan.
    rewrite ParseFacts.scan_core; eauto using ParseFacts.int_numeral.
    + assert (Hs : scan_pre rest = None).
      { destruct rest as [|x r]; [reflexivity|]. destruct Hr as [_ [Hl Hx]].
        unfold scan_pre, skip_chr.
        destruct (chr_eqb "-" x) eqn:E.
        - apply PyFacts.chr_eqb_eq in E. congruence.
        - cbn [span]. now rewrite Hl. }
      rewrite Hs. cbn. now rewrite HM, Hm, Hp.
    + destruct rest; [exact I | exact (proj1 Hr)].
Qed.

Lemma trailing_text_ignored_witness :
  parse_version "3.10.0-rc.1.2.3" = parse_version "3.10.0-rc.1"
  /\ parse_version "3.11.0.5" = parse_version "3.11.0".
Proof.
  split.
  - apply (proj1 (trailing_text_ignored "3" "10" "0" "1" ".2.3" 3 10 0 1
                    true true SRc eq_refl eq_refl eq_refl eq_refl)).
    reflexivity.
  - apply (proj2 (trailing_text_ignored "3" "11" "0" "1" ".5" 3 11 0 1
                    true true SRc eq_refl eq_refl eq_refl eq_refl)).
    repeat split; try reflexivity. discriminate.
Defined.

(** X6.  A stage word other than rc, beta and alpha gets rank 4: such a
    version has -4 as fourth key component and compares below the alpha
    pre-releases of the same numbers. *)
Theorem unknown_stage_ranks_lowest (M m p w n n' : pystr) (a b c k k' : Z)
    (hyphen dot h' d' : bool) :
  int M = Some a -> int m = Some b -> int p = Some c ->
  int n = Some k -> int n' = Some k' ->
  word w = true ->
  w <> str "rc" -> w <> str "beta" -> w <> str "alpha" ->
  let v := core M m p ++ opt_chr hyphen "-" ++ w ++ opt_chr dot "." ++ n in
  parse_version v = Some (a, b, c, -4, - k)
  /\ version_compare v (prerelease M m p h' SAlpha d' n') = Some (-1).
Proof.
  intros HM Hm Hp Hn Hn' Hw H1 H2 H3 v.
  assert (Hk : parse_version v = Some (a, b, c, -4, - k)).
  { subst v. rewrite <- (app_nil_r n).
    rewrite (parse_word M m p w n [] a b c k hyphen dot HM Hm Hp Hn Hw I).
    unfold pre_order. cbn [dict_get].
    destruct (str_eqb (str "") w) eqn:E0.
    { apply PyFacts.str_eqb_eq in E0. subst w. discriminate Hw. }
    destruct (str_eqb (str "rc") w) eqn:E1.
    { apply PyFacts.str_eqb_eq in E1. congruence. }
    destruct (str_eqb (str "beta") w) eqn:E2.
    { apply PyFacts.str_eqb_eq in E2. congruence. }
    destruct (str_eqb (str "alpha") w) eqn:E3.
    { apply PyFacts.str_eqb_eq in E3. congruence. }
    reflexivity. }
  split; [exact Hk|].
  apply (KeyOrder.compare_below_stage _ _ a b c (-4) (- k)
           (- stage_rank SAlpha) (- k')).
  - exact Hk.
  - now apply ParseFacts.parse_prerelease.
  - cbv. reflexivity.
Qed.

Lemma unknown_stage_ranks_lowest_witness :
  parse_version "3.9.0-dev.7" = Some (3, 9, 0, -4, -7)
  /\ version_compare "3.9.0-dev.7" "3.9.0-alpha.1" = Some (-1).
Proof.
  apply (unknown_stage_ranks_lowest "3" "9" "0" "dev" "7" "1" 3 9 0 7 1
           true true true true);
    solve [reflexivity | discriminate].
Defined.

Lemma contains_longer (p q s : pystr) :
  contains (p ++ q) s = true -> contains p s = true.
Proof.
  rewrite !PyFacts.contains_iff. intros [a [b ->]].
  exists a, (q ++ b). now rewrite <- app_assoc.
Qed.

Lemma cue_redundant (s name : pystr) :
  endswith s name || contains (str "-" ++ name ++ str ".") s
  || contains (str "-" ++ name) s
  = endswith s name || contains (str "-" ++ name) s.
Proof.
  destruct (endswith s name); [reflexivity|]. cbn [orb].
  destruct (contains (str "-" ++ name ++ str ".") s) eqn:E; [|reflexivity].
  rewrite app_assoc in E. apply contains_longer in E. now rewrite E.
Qed.

(** X7.  In each of [is_alpha], [is_beta], [is_rc] the test for the stage
    between a hyphen and a dot adds nothing: a version shows the cue exactly
    when it ends with the stage name or has the stage name after a hyphen
    anywhere. *)
Theorem dotted_cue_redundant (v : pystr) :
  (is_alpha v = true <->
   (exists a, v = a ++ str "alpha") \/ (exists a b, v = a ++ str "-alpha" ++ b))
  /\ (is_beta v = true <->
      (exists a, v = a ++ str "beta") \/ (exists a b, v = a ++ str "-beta" ++ b))
  /\ (is_rc v = true <->
      (exists a, v = a ++ str "rc") \/ (exists a b, v = a ++ str "-rc" ++ b)).
Proof.
  unfold is_alpha, is_beta, is_rc.
  change (str "-alpha.") with (str "-" ++ str "alpha" ++ str ".").
  change (str "-alpha") with (str "-" ++ str "alpha").
  change (str "-beta.") with (str "-" ++ str "beta" ++ str ".").
  change (str "-beta") with (str "-" ++ str "beta").
  change (str "-rc.") with (str "-" ++ str "rc" ++ str ".").
  change (str "-rc") with (str "-" ++ str "rc").
  rewrite (cue_redundant v (str "alpha")), (cue_redundant v (str "beta")),
    (cue_redundant v (str "rc")).
  rewrite !orb_true_iff, !PyFacts.endswith_iff, !PyFacts.contains_iff.
  repeat split; intros H; exact H.
Qed.

End ParseMore.

(** ** [filter_versions] in closed form *)

Module FilterMore.

Import Py PythonManifestParser Versions Listing.

Lemma branch_wanted (rt : list pystr) (v : pystr) :
  match release_branch (mem "alpha" rt) (mem "beta" rt) (mem "rc" rt)
          (mem "stable" rt) v with
  | Some _ => true
  | None => false
  end = wanted rt v.
Proof.
  unfold release_branch, wanted.
  destruct (mem "alpha" rt && is_alpha v); [reflexivity|].
  destruct (mem "beta" rt && is_beta v); [reflexivity|].
  destruct (mem "rc" rt && is_rc v); [reflexivity|].
  now destruct (mem "stable" rt && is_stable v).
Qed.

Lemma loop_filter (rt : list pystr) (m : list Entry) :
  fold_left (loop_body (mem "alpha" rt) (mem "beta" rt) (mem "rc" rt)
               (mem "stable" rt)) m []
  = filter (wanted rt) (present_versions m).
Proof.
  rewrite Filtering.loop_flat_map. cbn [app]. unfold present_versions.
  induction m as [|e m IH]; [reflexivity|]. cbn [flat_map].
  rewrite filter_app, <- IH. f_equal. unfold loop_body.
  destruct (version e) as [[|c v]|]; try reflexivity.
  cbn [filter app]. rewrite <- branch_wanted.
  now destruct (release_branch _ _ _ _ (c :: v)).
Qed.

Lemma matches_value (v p : pystr) :
  version_matches_filter v p
  = Some match Re.fullmatch (glob_re p) v with
         | Some _ => true
         | None => false
         end.
Proof.
  unfold version_matches_filter, Re.fullmatch_str.
  now rewrite Glob.compile_glob.
Qed.

Lemma comprehension_filter (p : pystr) (vs : list pystr) :
  comprehension (fun v => version_matches_filter v p) vs
  = Some (filter (glob_ok (Some p)) vs) \/ p = [].
Proof.
  destruct p as [|c p]; [now right|]. left.
  induction vs as [|v vs IH]; [reflexivity|].
  cbn [comprehension filter glob_ok]. rewrite IH, matches_value.
  reflexivity.
Qed.

Lemma filter_filter {A : Type} (f g : A -> bool) (l : list A) :
  filter g (filter f l) = filter (fun x => f x && g x) l.
Proof.
  induction l as [|x l IH]; [reflexivity|]. cbn [filter].
  destruct (f x); cbn [filter andb]; [|exact IH].
  destruct (g x); now rewrite IH.
Qed.

Lemma filter_versions_closed (m : list Entry) (rt : release_types_arg)
    (vf : option pystr) :
  filter_versions m rt vf
  = Some (filter (fun v => wanted (as_list rt) v && glob_ok vf v)
            (present_versions m)).
Proof.
  unfold filter_versions. fold (as_list rt). rewrite loop_filter.
  destruct vf as [[|c p]|].
  - f_equal. apply filter_ext. intros v. now rewrite andb_true_r.
  - destruct (comprehension_filter (c :: p)
                (filter (wanted (as_list rt)) (present_versions m)))
      as [H|H]; [|discriminate].
    rewrite H. now rewrite filter_filter.
  - f_equal. apply filter_ext. intros v. now rewrite andb_true_r.
Qed.

Lemma in_present (m : list Entry) (v : pystr) :
  In v (present_versions m) <->
  v <> [] /\ exists e, In e m /\ version e = Some v.
Proof.
  unfold present_versions. rewrite in_flat_map. split.
  - intros [e [He Hv]]. destruct (version e) as [[|c w]|] eqn:E;
      try now destruct Hv.
    destruct Hv as [<-|[]]. split; [discriminate|]. now exists e.
  - intros [Hv [e [He E]]]. exists e. split; [exact He|]. rewrite E.
    destruct v; [now elim Hv | now left].
Qed.

Lemma glob_ok_matches (p v : pystr) :
  glob_ok (Some p) v = true <-> p = [] \/ glob_matches p v.
Proof.
  destruct p as [|c p]; cbn [glob_ok].
  - split; [now left | reflexivity].
  - rewrite matches_value, <- Glob.fullmatch_glob.
    destruct (Re.fullmatch (glob_re (c :: p)) v); split;
      solve [intros _; right; discriminate | reflexivity | discriminate
            | intros [H|H]; [discriminate | now elim H]].
Qed.

(** X8.  [filter_versions] raises on no manifest, release types and pattern.
    Its result is the manifest's non-empty version strings, in manifest
    order and with their repetitions, that show the cue of at least one
    requested release type and, when a non-empty pattern is given, match it
    as a glob; entries without a version or with an empty one never
    appear. *)
Theorem filter_versions_selects (m : list Entry) (rt : release_types_arg)
    (vf : option pystr) :
  exists l,
    filter_versions m rt vf = Some l
    /\ l = filter (fun v => wanted (as_list rt) v && glob_ok vf v)
             (present_versions m)
    /\ (forall v, In v l <->
          v <> [] /\ (exists e, In e m /\ version e = Some v)
          /\ wanted (as_list rt) v = true
          /\ match vf with
             | Some p => p = [] \/ glob_matches p v
             | None => True
             end).
Proof.
  eexists. split; [apply filter_versions_closed|]. split; [reflexivity|].
  intros v. rewrite filter_In, in_present, andb_true_iff.
  destruct vf as [p|].
  - rewrite glob_ok_matches. tauto.
  - cbn [glob_ok]. tauto.
Qed.

Lemma wanted_mono (l1 l2 : list pystr) (v : pystr) :
  (forall t, In t l1 -> In t l2) -> wanted l1 v = true -> wanted l2 v = true.
Proof.
  intros H. unfold wanted.
  assert (Hm : forall t, mem t l1 = true -> mem t l2 = true).
  { intros t. unfold mem. rewrite !existsb_exists.
    intros [x [Hx E]]. exists x. split; [now apply H | exact E]. }
  rewrite !orb_true_iff, !andb_true_iff.
  intros [[[[A B]|[A B]]|[A B]]|[A B]]; apply Hm in A; rewrite A, B; tauto.
Qed.

(** X9.  Requesting more release types never loses a version: every version
    returned for a list of release types is returned for any list that
    contains them, with the same pattern. *)
Theorem filter_versions_monotone (m : list Entry) (l1 l2 : list pystr)
    (vf : option pystr) (r1 r2 : list pystr) :
  (forall t, In t l1 -> In t l2) ->
  filter_versions m (RtList l1) vf = Some r1 ->
  filter_versions m (RtList l2) vf = Some r2 ->
  forall v, In v r1 -> In v r2.
Proof.
  intros H H1 H2 v. rewrite filter_versions_closed in H1, H2.
  injection H1 as <-. injection H2 as <-. rewrite !filter_In, !andb_true_iff.
  cbn [as_list]. intros [Hp [Hw Hg]]. repeat split; try assumption.
  now apply (wanted_mono l1 l2).
Qed.

Lemma filter_versions_monotone_witness :
  In (str "3.11.0-rc.1") [str "3.13.0"; str "3.12.5"; str "3.11.0-rc.1"; str "3.8.10"].
Proof.
  apply (filter_versions_monotone sample_manifest [str "rc"]
           [str "stable"; str "rc"] None [str "3.11.0-rc.1"]
           [str "3.13.0"; str "3.12.5"; str "3.11.0-rc.1"; str "3.8.10"]).
  - intros t [<-|[]]. right. now left.
  - reflexivity.
  - reflexivity.
  - now left.
Defined.

(** X10.  The four release types together cover every version: with alpha,
    beta, rc and stable requested and no pattern, [filter_versions] returns
    all non-empty version strings of the manifest. *)
Theorem all_release_types_keep_everything (m : list Entry) :
  filter_versions m
    (RtList [str "alpha"; str "beta"; str "rc"; str "stable"]) None
  = Some (present_versions m).
Proof.
  rewrite filter_versions_closed. f_equal.
  rewrite <- (filter_ext (fun _ => true)).
  - induction (present_versions m) as [|v l IH]; [reflexivity|].
    cbn [filter]. now rewrite IH.
  - intros v. unfold wanted, is_stable. cbn [as_list glob_ok].
    change (mem "alpha" [str "alpha"; str "beta"; str "rc"; str "stable"]) with true.
    change (mem "beta" [str "alpha"; str "beta"; str "rc"; str "stable"]) with true.
    change (mem "rc" [str "alpha"; str "beta"; str "rc"; str "stable"]) with true.
    change (mem "stable" [str "alpha"; str "beta"; str "rc"; str "stable"]) with true.
    now destruct (is_alpha v), (is_beta v), (is_rc v).
Qed.

(** X11.  Release types are matched as whole, case-sensitive names: when none
    of alpha, beta, rc, stable is among the requested ones (a misspelt name,
    several names joined in one string), the result is empty. *)
Theorem unknown_release_types_select_nothing (m : list Entry)
    (rt : release_types_arg) (vf : option pystr) :
  mem "alpha" (as_list rt) = false -> mem "beta" (as_list rt) = false ->
  mem "rc" (as_list rt) = false -> mem "stable" (as_list rt) = false ->
  filter_versions m rt vf = Some [].
Proof.
  intros Ha Hb Hr Hs. rewrite filter_versions_closed. f_equal.
  unfold wanted. rewrite Ha, Hb, Hr, Hs. cbn [andb orb].
  induction (present_versions m) as [|v l IH]; [reflexivity | exact IH].
Qed.

Lemma unknown_release_types_select_nothing_witness :
  filter_versions sample_manifest (RtStr "stable,rc") None = Some [].
Proof.
  apply unknown_release_types_select_nothing; reflexivity.
Defined.

End FilterMore.

(** ** Sorted listing and the latest version *)

Module ListingFacts.

Import Py PythonManifestParser Listing.

Lemma parsed_key (v : pystr) :
  parse_version v <> None -> exists k, parse_version v = Some k.
Proof. destruct (parse_version v) as [k|]; [eauto | congruence]. Qed.

Lemma compare_some (a b : pystr) :
  parse_version a <> None -> parse_version b <> None ->
  exists r, version_compare a b = Some r.
Proof.
  intros Pa Pb. destruct (parsed_key a Pa) as [ka Ha].
  destruct (parsed_key b Pb) as [kb Hb].
  rewrite (KeyOrder.version_compare_keys a b ka kb Ha Hb). eauto.
Qed.

Lemma geb_keys (a b : pystr) (ka kb : VersionKey) :
  parse_version a = Some ka -> parse_version b = Some kb ->
  geb a b = negb (tuple_lt (items ka) (items kb)).
Proof.
  intros Ha Hb. unfold geb.
  destruct (OrderFacts.compare_cases a b ka kb Ha Hb)
    as [[H1 [H2 H3]]|[[H1 [H2 H3]]|[H1 H3]]]; rewrite H3.
  - now rewrite H2.
  - now rewrite H2.
  - subst kb. now rewrite Releases.tuple_lt_irrefl.
Qed.

Lemma geb_parses (a b : pystr) :
  geb a b = true ->
  exists ka kb, parse_version a = Some ka /\ parse_version b = Some kb.
Proof.
  unfold geb. destruct (version_compare a b) as [r|] eqn:E; [|discriminate].
  intros _. now apply (OrderFacts.compare_parses a b r).
Qed.

Lemma same_key_parses (a b : pystr) :
  same_key a b = true ->
  exists ka kb, parse_version a = Some ka /\ parse_version b = Some kb.
Proof.
  unfold same_key. destruct (version_compare a b) as [r|] eqn:E; [|discriminate].
  intros _. now apply (OrderFacts.compare_parses a b r).
Qed.

Lemma geb_total (a b : pystr) :
  parse_version a <> None -> parse_version b <> None ->
  geb a b = false -> geb b a = true.
Proof.
  intros Pa Pb. destruct (parsed_key a Pa) as [ka Ha].
  destruct (parsed_key b Pb) as [kb Hb].
  rewrite (geb_keys a b ka kb Ha Hb), (geb_keys b a kb ka Hb Ha).
  rewrite negb_false_iff, negb_true_iff. apply Releases.tuple_lt_asym.
Qed.

Lemma geb_trans (a b c : pystr) :
  geb a b = true -> geb b c = true -> geb a c = true.
Proof.
  intros G1 G2.
  destruct (geb_parses a b G1) as [ka [kb [Ha Hb]]].
  destruct (geb_parses b c G2) as [kb' [kc [Hb' Hc]]].
  revert G1 G2.
  rewrite (geb_keys a b ka kb Ha Hb), (geb_keys b c kb kc Hb Hc),
    (geb_keys a c ka kc Ha Hc), !negb_true_iff.
  apply OrderFacts.tuple_ge_trans; now rewrite !OrderFacts.items_length.
Qed.

Lemma geb_strict (a b : pystr) :
  parse_version a <> None -> parse_version b <> None ->
  geb a b = false -> version_compare b a = Some 1.
Proof.
  intros Pa Pb. destruct (parsed_key a Pa) as [ka Ha].
  destruct (parsed_key b Pb) as [kb Hb].
  rewrite (geb_keys a b ka kb Ha Hb), negb_false_iff. intros H.
  destruct (OrderFacts.compare_cases b a kb ka Hb Ha)
    as [[H1 [H2 H3]]|[[H1 [H2 H3]]|[H1 H3]]]; [exact H3| congruence |].
  subst kb. rewrite Releases.tuple_lt_irrefl in H. discriminate.
Qed.

Lemma same_key_keys (a b : pystr) :
  same_key a b = true -> parse_version a = parse_version b.
Proof.
  intros S. destruct (same_key_parses a b S) as [ka [kb [Ha Hb]]].
  revert S. unfold same_key.
  rewrite (KeyOrder.version_compare_keys a b ka kb Ha Hb), Z.eqb_eq, Ha, Hb.
  intros H. f_equal.
  apply (Releases.compare_zero_iff a b ka kb Ha Hb).
  now rewrite (KeyOrder.version_compare_keys a b ka kb Ha Hb), H.
Qed.

Lemma same_key_geb (a x y : pystr) :
  same_key a x = true -> same_key a y = true -> geb x y = true.
Proof.
  intros Sx Sy.
  destruct (same_key_parses a x Sx) as [ka [kx [Ka Kx]]].
  destruct (same_key_parses a y Sy) as [ka' [ky [_ Ky]]].
  apply same_key_keys in Sx, Sy.
  rewrite (geb_keys x y kx ky Kx Ky).
  assert (kx = ky) by congruence. subst ky.
  now rewrite Releases.tuple_lt_irrefl.
Qed.

Lemma insert_perm (x : pystr) (l : list pystr) :
  Permutation (x :: l) (insert_by geb x l).
Proof.
  induction l as [|y l IH]; cbn [insert_by]; [apply Permutation_refl|].
  destruct (geb x y); [apply Permutation_refl|].
  eapply perm_trans; [apply perm_swap|]. now apply perm_skip.
Qed.

Lemma sort_perm (l : list pystr) : Permutation l (sort_by geb l).
Proof.
  induction l as [|x l IH]; [constructor|]. cbn [sort_by].
  eapply perm_trans; [apply perm_skip, IH | apply insert_perm].
Qed.

Lemma sorted_in (l : list pystr) (v : pystr) :
  In v (sort_by geb l) -> In v l.
Proof. apply Permutation_in, Permutation_sym, sort_perm. Qed.

Lemma sort_nil (l : list pystr) : sort_by geb l = [] -> l = [].
Proof.
  intros E. pose proof (sort_perm l) as P. rewrite E in P.
  now apply Permutation_sym, Permutation_nil in P.
Qed.

(** On versions that all have a key the sort does not raise. *)
Lemma insert_desc_value (x : pystr) (l : list pystr) :
  parse_version x <> None -> (forall y, In y l -> parse_version y <> None) ->
  insert_desc version_compare x l = Some (insert_by geb x l).
Proof.
  intros Px. induction l as [|y l IH]; intros Pl; [reflexivity|].
  cbn [insert_desc insert_by]. unfold geb at 1.
  destruct (compare_some x y Px (Pl y (or_introl eq_refl))) as [r Hr].
  rewrite Hr. destruct (0 <=? r); [reflexivity|].
  rewrite IH; [reflexivity|]. intros z Hz. apply Pl. now right.
Qed.

Lemma sort_desc_value (l : list pystr) :
  (forall y, In y l -> parse_version y <> None) ->
  sort_desc version_compare l = Some (sort_by geb l).
Proof.
  induction l as [|x l IH]; intros Pl; [reflexivity|]. cbn [sort_desc sort_by].
  rewrite IH by (intros z Hz; apply Pl; now right).
  apply insert_desc_value; [apply Pl; now left|].
  intros z Hz. apply Pl. right. now apply sorted_in.
Qed.

(** Whatever the comparison, a sort that returns has kept the elements. *)
Lemma insert_desc_perm (cmp : pystr -> pystr -> option Z) (x : pystr)
    (l r : list pystr) :
  insert_desc cmp x l = Some r -> Permutation (x :: l) r.
Proof.
  revert r. induction l as [|y l IH]; intros r; cbn [insert_desc].
  - intros H. injection H as <-. apply Permutation_refl.
  - destruct (cmp x y) as [c|]; [|discriminate]. cbn.
    destruct (0 <=? c); [intros H; injection H as <-; apply Permutation_refl|].
    destruct (insert_desc cmp x l) as [r'|]; [|discriminate].
    intros H. injection H as <-.
    eapply perm_trans; [apply perm_swap|]. apply perm_skip. now apply IH.
Qed.

Lemma sort_desc_perm (cmp : pystr -> pystr -> option Z) (l r : list pystr) :
  sort_desc cmp l = Some r -> Permutation l r.
Proof.
  revert r. induction l as [|x l IH]; intros r; cbn [sort_desc].
  - intros H. injection H as <-. constructor.
  - destruct (sort_desc cmp l) as [s|]; [|discriminate]. cbn. intros H.
    eapply perm_trans; [apply perm_skip, (IH s eq_refl)|].
    now apply insert_desc_perm in H.
Qed.

(** A version without a key makes the sort of two or more versions raise. *)
Lemma sort_desc_raises (l : list pystr) :
  sort_raises l -> sort_desc version_compare l = None.
Proof.
  unfold sort_raises, some_unparsed.
  induction l as [|x l IH]; intros [L [v [Hv Pv]]]; [destruct Hv|].
  cbn [sort_desc]. destruct (sort_desc version_compare l) as [s|] eqn:E;
    [|reflexivity].
  cbn. pose proof (sort_desc_perm _ _ _ E) as P.
  destruct s as [|y s].
  { apply Permutation_sym, Permutation_nil in P. subst l. cbn in L. lia. }
  cbn [insert_desc].
  assert (C : version_compare x y = None).
  { apply OrderFacts.compare_none. destruct Hv as [<-|Hv]; [now left|].
    destruct l as [|y0 [|y1 l]]; [destruct Hv| |].
    - cbn in E. injection E as <- <-. destruct Hv as [<-|[]]. now right.
    - assert (X : Some (y :: s) = None)
        by (apply IH; split; [cbn; lia | eauto]).
      discriminate X. }
  now rewrite C.
Qed.

Lemma parsed_or_not (l : list pystr) :
  (forall y, In y l -> parse_version y <> None) \/ some_unparsed l.
Proof.
  induction l as [|x l [IH|[v [Hv Pv]]]].
  - left. intros y [].
  - destruct (parse_version x) as [k|] eqn:E.
    + left. intros y [<-|Hy]; [congruence | now apply IH].
    + right. exists x. split; [now left | exact E].
  - right. exists v. split; [now right | exact Pv].
Qed.

(** The sort raises in that case only. *)
Lemma sort_desc_cases (l : list pystr) :
  (sort_raises l /\ sort_desc version_compare l = None)
  \/ (~ sort_raises l /\ sort_desc version_compare l = Some (sort_by geb l)
      /\ ((List.length l <= 1)%nat
          \/ forall y, In y l -> parse_version y <> None)).
Proof.
  destruct l as [|x [|y l]].
  - right. split; [intros [L _]; cbn in L; lia|]. split; [reflexivity|].
    left. cbn. lia.
  - right. split; [intros [L _]; cbn in L; lia|]. split; [reflexivity|].
    left. cbn. lia.
  - destruct (parsed_or_not (x :: y :: l)) as [Pl|U].
    + right. split; [intros [_ [v [Hv Pv]]]; now apply (Pl v Hv)|].
      split; [now apply sort_desc_value | now right].
    + left. assert (R : sort_raises (x :: y :: l)) by (split; [cbn; lia | exact U]).
      split; [exact R | now apply sort_desc_raises].
Qed.

Lemma insert_sorted (x : pystr) (l : list pystr) :
  parse_version x <> None -> (forall y, In y l -> parse_version y <> None) ->
  StronglySorted (fun a b => geb a b = true) l ->
  StronglySorted (fun a b => geb a b = true) (insert_by geb x l).
Proof.
  intros Px. induction l as [|y l IH]; intros Pl H; cbn [insert_by].
  - constructor; constructor.
  - inversion H as [|? ? Hs Hf]; subst. destruct (geb x y) eqn:E.
    + constructor; [exact H|]. constructor; [exact E|].
      rewrite Forall_forall in *. intros z Hz. apply (geb_trans x y z E).
      now apply Hf.
    + constructor.
      * apply IH; [|exact Hs]. intros z Hz. apply Pl. now right.
      * apply (Permutation_Forall (insert_perm x l)).
        constructor; [|exact Hf].
        apply geb_total; [exact Px | apply Pl; now left | exact E].
Qed.

Lemma sort_sorted (l : list pystr) :
  (List.length l <= 1)%nat \/ (forall y, In y l -> parse_version y <> None) ->
  StronglySorted (fun a b => geb a b = true) (sort_by geb l).
Proof.
  intros [L|Pl].
  - destruct l as [|x [|y l]]; [constructor | | cbn in L; lia].
    cbn. constructor; constructor.
  - induction l as [|x l IH]; [constructor|]. cbn [sort_by].
    apply insert_sorted.
    + apply Pl. now left.
    + intros z Hz. apply Pl. right. now apply sorted_in.
    + apply IH. intros z Hz. apply Pl. now right.
Qed.

Lemma insert_stable (a x : pystr) (l : list pystr) :
  filter (same_key a) (insert_by geb x l) = filter (same_key a) (x :: l).
Proof.
  induction l as [|y l IH]; [reflexivity|]. cbn [insert_by].
  destruct (geb x y) eqn:E; [reflexivity|].
  cbn [filter] in *. rewrite IH.
  destruct (same_key a x) eqn:Ex, (same_key a y) eqn:Ey; try reflexivity.
  rewrite (same_key_geb a x y Ex Ey) in E. discriminate.
Qed.

Lemma sort_stable (a : pystr) (l : list pystr) :
  filter (same_key a) (sort_by geb l) = filter (same_key a) l.
Proof.
  induction l as [|x l IH]; [reflexivity|]. cbn [sort_by].
  rewrite insert_stable. cbn [filter]. now rewrite IH.
Qed.

Lemma list_versions_sort (m : list Entry) (rt : release_types_arg)
    (vf : option pystr) :
  list_versions m rt vf
  = sort_desc version_compare
      (filter (fun v => wanted (as_list rt) v && glob_ok vf v)
         (present_versions m)).
Proof.
  unfold list_versions. now rewrite FilterMore.filter_versions_closed.
Qed.

(** X12.  [list_versions] raises exactly when [filter_versions] selects two
    or more versions and [parse_version] raises on one of them, that is,
    one of them holds a numeral of more than 4300 digits.  Otherwise it
    returns the selected versions, each as often as selected, in descending
    order of their keys; versions with equal keys stay in manifest order. *)
Theorem list_versions_sorted (m : list Entry) (rt : release_types_arg)
    (vf : option pystr) :
  exists vs,
    filter_versions m rt vf = Some vs
    /\ (list_versions m rt vf = None <-> sort_raises vs)
    /\ (~ sort_raises vs ->
        exists sorted,
          list_versions m rt vf = Some sorted
          /\ Permutation vs sorted
          /\ StronglySorted (fun a b => geb a b = true) sorted
          /\ (forall a, filter (same_key a) sorted = filter (same_key a) vs)).
Proof.
  eexists. split; [apply FilterMore.filter_versions_closed|].
  rewrite list_versions_sort.
  set (vs := filter _ (present_versions m)).
  destruct (sort_desc_cases vs) as [[R E]|[R [E P]]]; rewrite E.
  - split; [tauto|]. intros N. now elim N.
  - split; [split; [discriminate | intros R'; now elim R]|].
    intros _. exists (sort_by geb vs). split; [reflexivity|].
    split; [apply sort_perm|]. split; [now apply sort_sorted|].
    intros a. apply sort_stable.
Qed.

(** X12 at the sample manifest with every release type. *)
Lemma list_versions_sorted_witness :
  exists sorted,
    list_versions sample_manifest
      (RtList [str "stable"; str "rc"; str "beta"; str "alpha"]) None
    = Some sorted
    /\ hd_error sorted = Some (str "3.13.0").
Proof.
  destruct (list_versions_sorted sample_manifest
              (RtList [str "stable"; str "rc"; str "beta"; str "alpha"]) None)
    as [vs [F [_ H]]].
  injection F as <-.
  destruct H as [sorted [L _]].
  - intros [_ [v [Hv Pv]]]. cbn in Hv.
    repeat (destruct Hv as [<-|Hv]; [discriminate Pv|]). exact Hv.
  - exists sorted. split; [exact L|].
    vm_compute in L. injection L as <-. reflexivity.
Defined.

Lemma sorted_head_split (l : list pystr) (v : pystr) (rest : list pystr) :
  (forall y, In y l -> parse_version y <> None) ->
  sort_by geb l = v :: rest ->
  exists pre post,
    l = pre ++ v :: post
    /\ (forall w, In w pre -> geb w v = false)
    /\ (forall w, In w post -> geb v w = true).
Proof.
  revert v rest. induction l as [|x r IH]; intros v rest Pl H; [discriminate|].
  assert (Pr : forall y, In y r -> parse_version y <> None)
    by (intros z Hz; apply Pl; now right).
  cbn [sort_by] in H. destruct (sort_by geb r) as [|y s'] eqn:E.
  - apply sort_nil in E. subst r. injection H as <- <-.
    exists [], []. repeat split; intros w [].
  - destruct (IH y s' Pr eq_refl) as [pre [post [Hr [Hpre Hpost]]]].
    assert (Py : parse_version y <> None)
      by (apply Pr; rewrite Hr; apply in_or_app; right; now left).
    cbn [insert_by] in H. destruct (geb x y) eqn:G.
    + injection H as <- <-. exists [], r. split; [reflexivity|].
      split; [intros w []|]. intros w Hw. rewrite Hr in Hw.
      apply in_app_or in Hw. destruct Hw as [Hw|[<-|Hw]].
      * apply (geb_trans x y w G). apply geb_total; [| exact Py | now apply Hpre].
        apply Pr. rewrite Hr. apply in_or_app. now left.
      * exact G.
      * apply (geb_trans x y w G). now apply Hpost.
    + injection H as <- <-. exists (x :: pre), post. rewrite Hr.
      split; [reflexivity|]. split; [|exact Hpost].
      intros w [<-|Hw]; [exact G | now apply Hpre].
Qed.

Lemma geb_value (a b : pystr) :
  geb a b = true -> exists r, version_compare a b = Some r /\ 0 <= r.
Proof.
  unfold geb. destruct (version_compare a b) as [r|]; [|discriminate].
  intros H. exists r. split; [reflexivity | now apply Z.leb_le].
Qed.

Lemma selected_nonempty (f : pystr -> bool) (m : list Entry) (v : pystr) :
  In v (filter f (present_versions m)) -> v <> [].
Proof.
  rewrite filter_In, FilterMore.in_present. tauto.
Qed.

Lemma latest_sort (m : list Entry) (rt : release_types_arg) (vf : option pystr) :
  get_latest_version m rt vf
  = match filter (fun v => wanted (as_list rt) v && glob_ok vf v)
            (present_versions m) with
    | [] => Some None
    | (_ :: _) as vs =>
        match sort_desc version_compare vs with
        | Some (v :: _) => Some (Some v)
        | _ => None
        end
    end.
Proof.
  unfold get_latest_version. rewrite FilterMore.filter_versions_closed.
  destruct (filter _ (present_versions m)) as [|x vs]; [reflexivity|].
  destruct (sort_desc version_compare (x :: vs)) as [[|v r]|]; reflexivity.
Qed.

(** The head of the sorted list, and where it stood before the sort. *)
Lemma head_first_maximum (vs : list pystr) :
  vs <> [] -> ~ sort_raises vs ->
  exists v pre post rest,
    sort_desc version_compare vs = Some (v :: rest)
    /\ vs = pre ++ v :: post
    /\ (forall w, In w pre -> version_compare v w = Some 1)
    /\ (forall w, In w post ->
          exists r, version_compare v w = Some r /\ 0 <= r).
Proof.
  intros Hne N.
  destruct (sort_desc_cases vs) as [[R _]|[_ [E [L|Pl]]]]; [now elim N| |].
  - destruct vs as [|x [|y vs]]; [now elim Hne | | cbn in L; lia].
    exists x, [], [], []. split; [reflexivity|]. split; [reflexivity|].
    split; intros w [].
  - rewrite E. destruct (sort_by geb vs) as [|v rest] eqn:S.
    + apply sort_nil in S. now elim Hne.
    + destruct (sorted_head_split _ _ _ Pl S) as [pre [post [Hl [Hpre Hpost]]]].
      exists v, pre, post, rest. split; [reflexivity|]. split; [exact Hl|].
      split.
      * intros w Hw. apply geb_strict; [| |now apply Hpre]; apply Pl; rewrite Hl;
          apply in_or_app; [now left | right; now left].
      * intros w Hw. apply geb_value. now apply Hpost.
Qed.

(** X13.  [get_latest_version] returns [None] exactly when
    [filter_versions] selects nothing, and raises exactly when two or more
    versions are selected and [parse_version] raises on one of them.
    Otherwise it returns the first of the selected versions with the
    greatest key: it compares strictly greater than every selected version
    before it in the manifest and greater than or equal to every one after
    it, and it is the head of [list_versions]. *)
Theorem get_latest_version_first_maximum (m : list Entry)
    (rt : release_types_arg) (vf : option pystr) :
  exists vs,
    filter_versions m rt vf = Some vs
    /\ (get_latest_version m rt vf = Some None <-> vs = [])
    /\ (get_latest_version m rt vf = None <-> sort_raises vs)
    /\ (vs <> [] -> ~ sort_raises vs ->
        exists v pre post rest,
          get_latest_version m rt vf = Some (Some v)
          /\ list_versions m rt vf = Some (v :: rest)
          /\ vs = pre ++ v :: post
          /\ (forall w, In w pre -> version_compare v w = Some 1)
          /\ (forall w, In w post ->
                exists r, version_compare v w = Some r /\ 0 <= r)).
Proof.
  eexists. split; [apply FilterMore.filter_versions_closed|].
  rewrite latest_sort, list_versions_sort.
  set (sel := filter _ (present_versions m)).
  destruct sel as [|x l] eqn:V.
  { split; [tauto|]. split.
    - split; [discriminate | intros [L _]; cbn in L; lia].
    - intros H. now elim H. }
  assert (Hne : x :: l <> []) by discriminate.
  destruct (sort_desc_cases (x :: l)) as [[R E]|[N _]].
  - rewrite E. split; [split; [discriminate | intros H; now elim Hne]|].
    split; [tauto|]. intros _ N. now elim N.
  - destruct (head_first_maximum (x :: l) Hne N)
      as [v [pre [post [rest [E [Hl [Hpre Hpost]]]]]]].
    rewrite E. split; [split; [discriminate | intros H; now elim Hne]|].
    split; [split; [discriminate | intros R; now elim N]|].
    intros _ _. exists v, pre, post, rest. auto.
Qed.

(** X13 at the sample manifest with the default release types. *)
Lemma get_latest_version_first_maximum_witness :
  get_latest_version sample_manifest RtNone None = Some (Some (str "3.13.0")).
Proof.
  destruct (get_latest_version_first_maximum sample_manifest RtNone None)
    as [vs [F [_ [_ H]]]].
  injection F as <-.
  destruct H as [v [pre [post [rest [L _]]]]].
  - discriminate.
  - intros [_ [v [Hv Pv]]]. cbn in Hv.
    repeat (destruct Hv as [<-|Hv]; [discriminate Pv|]). exact Hv.
  - rewrite L. vm_compute in L. injection L as <-. reflexivity.
Defined.

Lemma construct_value (manifest : loaded) :
  construct manifest
  = match manifest with
    | IsList ((_ :: _) as entries) => Some entries
    | _ => None
    end.
Proof. destruct manifest as [[|]|[|e es]]; reflexivity. Qed.

(** X14.  [main], once the manifest is read as a list of entries or as a
    value that is not a list, ends with exit status 0 or 1.  The status is
    1 exactly when a mode is chosen and the manifest is not a list, or is
    empty, or the sort of the selected versions raises, or only [--latest]
    is given and no version is selected.  With [--list] and a
    manifest that is a non-empty list it prints the sorted listing and exits
    with 0, also when the listing is empty and when [--latest] is given as
    well, unless [list_versions] raises; no version is printed when it
    exits with 1. *)
Theorem main_exit_status (list_flag latest_flag : bool) (release_types : list pystr)
    (vf : option pystr) (manifest : loaded) :
  exists out code,
    process (main_run list_flag latest_flag release_types vf manifest)
    = (out, code)
    /\ (code = 0 \/ code = 1)
    /\ (code = 1 <->
        list_flag || latest_flag = true
        /\ match manifest with
           | NotList _ => True
           | IsList [] => True
           | IsList ((_ :: _) as m) =>
               exists vs,
                 filter_versions m (RtList release_types) vf = Some vs
                 /\ (sort_raises vs \/ (list_flag = false /\ vs = []))
           end)
    /\ (code = 1 -> out = [])
    /\ (list_flag = true ->
        forall m, manifest = IsList m -> m <> [] ->
        match list_versions m (RtList release_types) vf with
        | Some sorted => out = sorted /\ code = 0
        | None => out = [] /\ code = 1
        end).
Proof.
  unfold main_run.
  destruct (list_flag || latest_flag) eqn:F; cbn [negb].
  2:{ exists [], 0. split; [reflexivity|]. split; [now left|].
      split; [split; [discriminate | intros [H _]; discriminate]|].
      split; [discriminate|]. intros ->. discriminate F. }
  rewrite construct_value.
  destruct manifest as [t|[|e m]].
  { exists [], 1. split; [reflexivity|]. split; [now right|].
    split; [tauto|]. split; [reflexivity|]. discriminate. }
  { exists [], 1. split; [reflexivity|]. split; [now right|].
    split; [tauto|]. split; [reflexivity|].
    intros _ m H. injection H as <-. intros N. now elim N. }
  pose proof (FilterMore.filter_versions_closed (e :: m) (RtList release_types) vf)
    as Fv.
  set (vs := filter _ (present_versions (e :: m))) in Fv.
  destruct list_flag.
  - rewrite list_versions_sort. fold vs.
    destruct (sort_desc_cases vs) as [[R E]|[N [E _]]]; rewrite E; cbn [process].
    + exists [], 1. split; [reflexivity|]. split; [now right|].
      split; [split; [intros _; split; [reflexivity|]; exists vs; auto | reflexivity]|].
      split; [reflexivity|].
      intros _ m' H. injection H as <-. intros _.
      rewrite list_versions_sort. fold vs. rewrite E. now split.
    + eexists. exists 0. split; [reflexivity|]. split; [now left|].
      split; [split; [discriminate|]|].
      { intros [_ [vs' [Fv' [R|[H _]]]]]; [|discriminate].
        rewrite Fv in Fv'. injection Fv' as <-. now elim N. }
      split; [discriminate|].
      intros _ m' H. injection H as <-. intros _.
      rewrite list_versions_sort. fold vs. rewrite E. now split.
  - rewrite latest_sort. fold vs.
    assert (Hsel : forall v, In v vs -> v <> [])
      by (intros v; apply selected_nonempty).
    clearbody vs. destruct vs as [|x l]; cbn [process].
    { exists [], 1. split; [reflexivity|]. split; [now right|].
      split; [split; [intros _; split; [reflexivity|]; exists []; auto
                     | reflexivity]|].
      split; [reflexivity | discriminate]. }
    destruct (sort_desc_cases (x :: l)) as [[R E]|[N _]].
    + rewrite E. cbn [process].
      exists [], 1. split; [reflexivity|]. split; [now right|].
      split; [split; [intros _; split; [reflexivity|]; exists (x :: l); auto
                     | reflexivity]|].
      split; [reflexivity | discriminate].
    + destruct (head_first_maximum (x :: l) (not_eq_sym (@nil_cons _ x l)) N)
        as [v [pre [post [rest [E [Hl _]]]]]].
      rewrite E.
      assert (Hv : v <> []).
      { apply Hsel. rewrite Hl. apply in_or_app. right. now left. }
      destruct v as [|c v]; [now elim Hv|]. cbn [process].
      exists [c :: v], 0. split; [reflexivity|]. split; [now left|].
      split; [split; [discriminate|]|].
      { intros [_ [vs' [Fv' [R|[_ H]]]]]; rewrite Fv in Fv';
          injection Fv' as <-; [now elim N | discriminate]. }
      split; discriminate.
Qed.

(** X14 at [--latest] with a pattern that selects nothing. *)
Lemma main_exit_status_witness :
  process (main_run false true [str "stable"] (Some (str "5.0.*"))
             (IsList sample_manifest)) = ([], 1).
Proof.
  destruct (main_exit_status false true [str "stable"] (Some (str "5.0.*"))
              (IsList sample_manifest)) as [out [code [E [_ [C [O _]]]]]].
  rewrite E.
  assert (H : code = 1).
  { apply C. split; [reflexivity|]. cbn [sample_manifest].
    eexists. split; [reflexivity|]. right. now split. }
  now rewrite H, (O H).
Defined.

End ListingFacts.

(** ** Globs without a star and globs ending in one *)

Module GlobMore.

Import Py PythonManifestParser Versions.

Lemma matches_true (v p : pystr) :
  version_matches_filter v p = Some true <-> glob_matches p v.
Proof.
  rewrite FilterMore.matches_value, <- Glob.fullmatch_glob.
  destruct (Re.fullmatch (glob_re p) v); split; congruence.
Qed.

Lemma star_free_exact (p v : pystr) :
  ~ In "*"%char p -> (glob_matches p v <-> v = p).
Proof.
  revert v. induction p as [|c p IH]; intros v Hs.
  - split; [intros H; now inversion H | intros ->; constructor].
  - assert (Hc : c <> "*"%char) by (intros ->; apply Hs; now left).
    assert (Hp : ~ In "*"%char p) by (intros H; apply Hs; now right).
    split.
    + intros H. inversion H as [|? ? v' _ Hv|]; subst.
      * f_equal. now apply IH.
      * now elim Hc.
    + intros ->. constructor; [exact Hc | now apply IH].
Qed.

Lemma star_free_prefix (p v : pystr) :
  ~ In "*"%char p ->
  (glob_matches (p ++ ["*"%char]) v <->
   exists w, v = p ++ w /\ Forall (fun c => c <> "010"%char) w).
Proof.
  revert v. induction p as [|c p IH]; intros v Hs; cbn [app].
  - split.
    + intros H. inversion H as [|? ? ? Hn|? w v' Hw Hv]; subst.
      * now elim Hn.
      * inversion Hv. subst. exists w. now rewrite app_nil_r.
    + intros [w [-> Hw]]. rewrite <- (app_nil_r w).
      constructor; [exact Hw | constructor].
  - assert (Hc : c <> "*"%char) by (intros ->; apply Hs; now left).
    assert (Hp : ~ In "*"%char p) by (intros H; apply Hs; now right).
    split.
    + intros H. inversion H as [|? ? v' _ Hv|]; subst.
      * apply (IH v' Hp) in Hv. destruct Hv as [w [-> Hw]]. now exists w.
      * now elim Hc.
    + intros [w [-> Hw]]. constructor; [exact Hc|].
      apply (IH _ Hp). now exists w.
Qed.

(** X15.  A pattern without [*] matches exactly itself: every other
    character of the pattern, the dot and the other characters special in
    regular expressions included, stands for itself only. *)
Theorem starless_pattern_matches_itself_only (v p : pystr) :
  ~ In "*"%char p ->
  (version_matches_filter v p = Some true <-> v = p).
Proof.
  intros H. rewrite matches_true. now apply star_free_exact.
Qed.

Lemma starless_pattern_matches_itself_only_witness :
  version_matches_filter "3.13.0" "3.13.0" = Some true.
Proof.
  apply (starless_pattern_matches_itself_only "3.13.0" "3.13.0");
    [|reflexivity].
  cbn. intuition discriminate.
Defined.

(** X16.  A pattern that is a star-free text followed by one [*] matches
    exactly the versions that start with that text and go on without a line
    feed. *)
Theorem prefix_pattern_matches_prefix (v p : pystr) :
  ~ In "*"%char p ->
  (version_matches_filter v (p ++ str "*") = Some true <->
   exists w, v = p ++ w /\ Forall (fun c => c <> "010"%char) w).
Proof.
  intros H. rewrite matches_true. now apply star_free_prefix.
Qed.

Lemma prefix_pattern_matches_prefix_witness :
  version_matches_filter "3.13.5" (str "3.13." ++ str "*") = Some true.
Proof.
  apply (prefix_pattern_matches_prefix "3.13.5" "3.13.").
  - cbn. intuition discriminate.
  - exists (str "5"). split; [reflexivity|].
    constructor; [discriminate | constructor].
Defined.

End GlobMore.

(** ** Building the partial manifest *)

Module BuildFacts.

Import Py PartialManifest PartialMain.

Lemma split_plain (sep : ascii) (f : pystr) :
  ~ In sep f -> split sep f = [f].
Proof.
  induction f as [|c f IH]; intros H; [reflexivity|]. cbn [split].
  destruct (chr_eqb c sep) eqn:E.
  - apply PyFacts.chr_eqb_eq in E. subst c. elim H. now left.
  - rewrite IH; [reflexivity|]. intros Hin. apply H. now right.
Qed.

Lemma split_field (sep : ascii) (f rest : pystr) :
  ~ In sep f -> split sep (f ++ sep :: rest) = f :: split sep rest.
Proof.
  induction f as [|c f IH]; intros H; cbn [app split].
  - now rewrite PyFacts.chr_eqb_refl.
  - destruct (chr_eqb c sep) eqn:E.
    + apply PyFacts.chr_eqb_eq in E. subst c. elim H. now left.
    + rewrite IH; [reflexivity|]. intros Hin. apply H. now right.
Qed.

(** Splitting undoes joining when no field holds the separator. *)
Lemma split_join (sep : ascii) (l : list pystr) :
  l <> [] -> Forall (fun f => ~ In sep f) l ->
  split sep (join [sep] l) = l.
Proof.
  induction l as [|f l IH]; intros Hne Hf; [now elim Hne|].
  inversion Hf as [|? ? Hf1 Hf2]; subst. destruct l as [|g l].
  - cbn [join]. now apply split_plain.
  - rewrite AssetNames.join_cons. cbn [app].
    rewrite (split_field sep f _ Hf1), IH; [reflexivity | discriminate | exact Hf2].
Qed.

Lemma strip_prefix_known (prefix body : pystr) :
  In prefix PREFIXES -> strip_prefix PREFIXES (prefix ++ body) = body.
Proof.
  intros [<-|[<-|[]]].
  - cbn [strip_prefix PREFIXES]. rewrite PyFacts.startswith_app.
    apply AssetNames.skipn_prefix.
  - unfold PREFIXES. cbn [strip_prefix].
    replace (startswith (str "trivy-python-" ++ body) (str "python-")) with false
      by reflexivity.
    rewrite PyFacts.startswith_app. apply AssetNames.skipn_prefix.
Qed.

Lemma strip_targz (body : pystr) :
  strip_suffix SUFFIXES (body ++ str ".tar.gz") = body.
Proof.
  unfold SUFFIXES. cbn [strip_suffix]. rewrite PyFacts.endswith_app.
  fold (Re.consumed (body ++ str ".tar.gz") (str ".tar.gz")).
  apply ReFacts.consumed_app.
Qed.

(** X17.  Parsing undoes the naming of an asset: for a name made of a known
    prefix, at least four hyphen-free fields joined by hyphens, and
    [.tar.gz], [parse_filename] returns the first four fields; further
    fields are dropped. *)
Theorem parse_filename_of_asset_name (prefix v pl pv ar : pystr)
    (more : list pystr) :
  In prefix PREFIXES ->
  Forall (fun f => ~ In "-"%char f) (v :: pl :: pv :: ar :: more) ->
  parse_filename (asset_name prefix (v :: pl :: pv :: ar :: more))
  = Some {| p_version := v; p_platform := pl;
            p_platform_version := pv; p_arch := ar |}.
Proof.
  intros Hp Hf. unfold parse_filename, strip_known_wrappers, asset_name.
  rewrite (strip_prefix_known prefix _ Hp), strip_targz.
  change (str "-") with ["-"%char].
  rewrite (split_join "-" (v :: pl :: pv :: ar :: more)); [|discriminate|exact Hf].
  reflexivity.
Qed.

Lemma parse_filename_of_asset_name_witness :
  parse_filename "python-3.13.3-linux-22.04-ppc64le.tar.gz"
  = Some {| p_version := "3.13.3"; p_platform := "linux";
            p_platform_version := "22.04"; p_arch := "ppc64le" |}.
Proof.
  apply (parse_filename_of_asset_name "python-" "3.13.3" "linux" "22.04"
           "ppc64le" []).
  - now left.
  - repeat constructor; cbn; intuition discriminate.
Defined.

Lemma build_step_split (tag owner repo : pystr) (es : list ManifestPart)
    (errs : list pystr) (a : Asset) :
  build_step tag owner repo (es, errs) a
  = (es ++ step_entries tag owner repo a, errs ++ step_errors tag owner repo a).
Proof.
  unfold step_entries, step_errors, build_step.
  destruct (should_skip (name a)); cbn [fst snd]; [now rewrite !app_nil_r|].
  destruct (parse_filename (name a)); cbn [fst snd].
  - destruct (validate_download_url _ _ _ _ _); cbn [negb fst snd app];
      now rewrite ?app_nil_r.
  - cbn [app]. now rewrite app_nil_r.
Qed.

Lemma build_fold (tag owner repo : pystr) (assets : list Asset)
    (es : list ManifestPart) (errs : list pystr) :
  fold_left (build_step tag owner repo) assets (es, errs)
  = (es ++ flat_map (step_entries tag owner repo) assets,
     errs ++ flat_map (step_errors tag owner repo) assets).
Proof.
  revert es errs. induction assets as [|a assets IH]; intros es errs;
    cbn [fold_left flat_map].
  - now rewrite !app_nil_r.
  - now rewrite build_step_split, IH, <- !app_assoc.
Qed.

Lemma build_flat (tag owner repo : pystr) (assets : list Asset) :
  build_manifest_entries tag assets owner repo
  = (flat_map (step_entries tag owner repo) assets,
     flat_map (step_errors tag owner repo) assets).
Proof. unfold build_manifest_entries. now rewrite build_fold. Qed.

(** What a kept asset contributes, and that no other asset contributes an
    entry. *)
Lemma step_entries_judge (tag owner repo : pystr) (a : Asset) :
  match judge owner repo tag a with
  | Kept =>
      exists parsed,
        parse_filename (name a) = Some parsed
        /\ step_entries tag owner repo a =
           [{| mp_version := tag; mp_filename := name a;
               mp_arch := p_arch parsed; mp_platform := p_platform parsed;
               mp_platform_version := p_platform_version parsed;
               mp_download_url := final_url owner repo tag (name a) |}]
        /\ step_errors tag owner repo a = []
  | Skipped => step_entries tag owner repo a = []
               /\ step_errors tag owner repo a = []
  | _ => step_entries tag owner repo a = []
         /\ List.length (step_errors tag owner repo a) = 1%nat
  end.
Proof.
  unfold judge, step_entries, step_errors, build_step.
  destruct (should_skip (name a)); [now split|].
  destruct (parse_filename (name a)) as [parsed|]; [|now split].
  destruct (validate_download_url _ _ _ _ _); cbn [negb fst snd];
    [|now split].
  exists parsed. repeat split.
Qed.

Lemma judge_kept_not_skipped (tag owner repo : pystr) (a : Asset) :
  judge owner repo tag a = Kept -> should_skip (name a) = false.
Proof. unfold judge. now destruct (should_skip (name a)). Qed.

Lemma final_url_valid (owner repo tag filename : pystr) :
  validate_download_url (final_url owner repo tag filename) owner repo tag filename
  = true.
Proof.
  rewrite Urls.validate_is_prefix_test. unfold final_url.
  apply PyFacts.startswith_app.
Qed.

(** X18.  The entries [build_manifest_entries] returns are one per kept
    asset, in asset order.  Each carries the tag as its version (not the
    version read from the file name), the asset name as file name, the
    architecture, platform and platform version parsed from that name, and
    the URL rebuilt from owner, repository, tag and name, which passes
    [validate_download_url]; no entry comes from a skipped asset. *)
Theorem built_entries_invariant (tag owner repo : pystr) (assets : list Asset) :
  let entries := fst (build_manifest_entries tag assets owner repo) in
  map mp_filename entries = map name (filter (is_kept owner repo tag) assets)
  /\ Forall (fun e =>
       mp_version e = tag
       /\ mp_download_url e = final_url owner repo tag (mp_filename e)
       /\ validate_download_url (mp_download_url e) owner repo tag (mp_filename e)
          = true
       /\ should_skip (mp_filename e) = false
       /\ exists parsed,
            parse_filename (mp_filename e) = Some parsed
            /\ mp_arch e = p_arch parsed
            /\ mp_platform e = p_platform parsed
            /\ mp_platform_version e = p_platform_version parsed) entries.
Proof.
  intros entries. subst entries. rewrite build_flat. cbn [fst].
  induction assets as [|a assets [IH1 IH2]]; [split; [reflexivity | constructor]|].
  cbn [flat_map filter]. unfold is_kept at 1.
  pose proof (step_entries_judge tag owner repo a) as H.
  pose proof (judge_kept_not_skipped tag owner repo a) as Hs.
  destruct (judge owner repo tag a).
  - destruct H as [-> _]. now split.
  - destruct H as [-> _]. now split.
  - destruct H as [-> _]. now split.
  - destruct H as [parsed [Hp [-> _]]]. cbn [app map]. split.
    + now rewrite IH1.
    + constructor; [|exact IH2]. cbn [mp_version mp_download_url mp_filename
        mp_arch mp_platform mp_platform_version].
      repeat split; [apply final_url_valid | now apply Hs|].
      exists parsed. repeat split. exact Hp.
Qed.

Lemma flat_map_length_kept (tag owner repo : pystr) (assets : list Asset) :
  List.length (flat_map (step_entries tag owner repo) assets)
  = List.length (filter (is_kept owner repo tag) assets)
  /\ List.length (flat_map (step_errors tag owner repo) assets)
     = List.length (filter (is_failed owner repo tag) assets).
Proof.
  induction assets as [|a assets [IH1 IH2]]; [now split|].
  cbn [flat_map filter]. rewrite !length_app, IH1, IH2.
  unfold is_kept at 2, is_failed at 2.
  pose proof (step_entries_judge tag owner repo a) as H.
  destruct (judge owner repo tag a).
  - destruct H as [-> ->]. now split.
  - destruct H as [-> ->]. now split.
  - destruct H as [-> ->]. now split.
  - destruct H as [parsed [_ [-> ->]]]. now split.
Qed.

(** X19.  Every asset is accounted for once: there are as many entries as
    kept assets and as many errors as assets that are not skipped and fail
    to parse or to validate; skipped assets leave no trace, so entries and
    errors together number the assets that are not skipped. *)
Theorem entries_and_errors_account (tag owner repo : pystr) (assets : list Asset) :
  let '(entries, errors) := build_manifest_entries tag assets owner repo in
  List.length entries = List.length (filter (is_kept owner repo tag) assets)
  /\ List.length errors = List.length (filter (is_failed owner repo tag) assets)
  /\ (List.length entries + List.length errors
      = List.length (filter (fun a => negb (should_skip (name a))) assets))%nat.
Proof.
  rewrite build_flat.
  destruct (flat_map_length_kept tag owner repo assets) as [H1 H2].
  split; [exact H1|]. split; [exact H2|]. rewrite H1, H2. clear H1 H2.
  induction assets as [|a assets IH]; [reflexivity|]. cbn [filter].
  unfold is_kept at 1, is_failed at 1, judge.
  destruct (should_skip (name a)); cbn [negb]; [exact IH|].
  destruct (parse_filename (name a)); cbn [List.length]; [|lia].
  destruct (validate_download_url _ _ _ _ _); cbn [List.length]; lia.
Qed.

Lemma existsb_filter_nil {A : Type} (f : A -> bool) (l : list A) :
  existsb f l = match filter f l with [] => false | _ :: _ => true end.
Proof.
  induction l as [|x l IH]; [reflexivity|]. cbn [existsb filter].
  destruct (f x); [reflexivity | exact IH].
Qed.

(** X20.  [main], once the assets are read, exits with 1 and writes nothing
    exactly when at least one asset failed to parse or to validate and none
    was kept; in every other case, also for an empty asset list and when
    every asset was skipped, it exits with 0 and writes the entries. *)
Theorem partial_main_exit_status (tag owner repo : pystr) (assets : list Asset) :
  main_emit tag owner repo assets
  = if existsb (is_failed owner repo tag) assets
       && negb (existsb (is_kept owner repo tag) assets)
    then (1, None)
    else (0, Some (fst (build_manifest_entries tag assets owner repo))).
Proof.
  unfold main_emit. rewrite !existsb_filter_nil.
  destruct (flat_map_length_kept tag owner repo assets) as [H1 H2].
  rewrite build_flat. cbn [fst].
  destruct (flat_map (step_errors tag owner repo) assets) as [|er errs],
    (filter (is_failed owner repo tag) assets) as [|f fs]; try discriminate H2;
  destruct (flat_map (step_entries tag owner repo) assets) as [|en ens],
    (filter (is_kept owner repo tag) assets) as [|k ks]; try discriminate H1;
  reflexivity.
Qed.

End BuildFacts.

(** ** Applying partial manifests *)

Module ApplyFacts.

Import Py ApplyPartials.

Lemma str_eqb_sym (a b : pystr) : str_eqb a b = str_eqb b a.
Proof.
  destruct (str_eqb a b) eqn:E.
  - apply PyFacts.str_eqb_eq in E. subst b. symmetry.
    now apply PyFacts.str_eqb_eq.
  - destruct (str_eqb b a) eqn:E'; [|reflexivity].
    apply PyFacts.str_eqb_eq in E'. subst b.
    assert (str_eqb a a = true) by now apply PyFacts.str_eqb_eq. congruence.
Qed.

(** A key among the keys can be looked up. *)
Lemma mem_getitem (d : dict) (k : pystr) :
  mem k (keys d) = true -> exists v, getitem d k = Some v.
Proof.
  induction d as [|[k' v'] d IH]; [discriminate|].
  cbn [keys map fst mem existsb getitem]. rewrite (str_eqb_sym k' k).
  destruct (str_eqb k k'); [intros _; now exists v'|]. exact IH.
Qed.

Lemma valid_required (d : dict) (k : pystr) :
  valid_entry d = true -> In k REQUIRED_FIELDS -> exists v, getitem d k = Some v.
Proof.
  unfold valid_entry. rewrite forallb_forall. intros H Hk.
  apply mem_getitem. now apply H.
Qed.

Lemma apply_loop_calls (entries : list dict) (calls : list UpdateCall) (n : Z) :
  exists cs,
    apply_loop entries calls n
    = Some (calls ++ cs, n + Z.of_nat (List.length cs))
    /\ Forall2 (fun d c =>
         getitem d "version" = Some (u_version c)
         /\ getitem d "filename" = Some (u_filename c)
         /\ getitem d "arch" = Some (u_arch c)
         /\ getitem d "platform" = Some (u_platform c)
         /\ getitem d "download_url" = Some (u_download_url c)
         /\ u_platform_version c = getitem d "platform_version"
         /\ u_stable c = true
         /\ u_file_name c = u_version c ++ str "-" ++ u_arch c ++ str ".json")
       (filter valid_entry entries) cs.
Proof.
  revert calls n. induction entries as [|d entries IH]; intros calls n.
  - exists []. cbn [apply_loop filter List.length]. rewrite app_nil_r, Z.add_0_r.
    split; [reflexivity | constructor].
  - cbn [apply_loop filter]. destruct (valid_entry d) eqn:V; cbn [negb].
    + destruct (valid_required d "version" V) as [ve Eve]; [cbn; tauto|].
      destruct (valid_required d "arch" V) as [ar Ear]; [cbn; tauto|].
      destruct (valid_required d "filename" V) as [fn Efn]; [cbn; tauto|].
      destruct (valid_required d "platform" V) as [pl Epl]; [cbn; tauto|].
      destruct (valid_required d "download_url" V) as [du Edu]; [cbn; tauto|].
      rewrite Eve, Ear, Efn, Epl, Edu.
      match goal with
      | |- context [apply_loop entries (calls ++ [?c]) (n + 1)] =>
          destruct (IH (calls ++ [c]) (n + 1)) as [cs [H1 H2]];
          exists (c :: cs)
      end.
      rewrite H1, <- app_assoc. cbn [app List.length]. split.
      * f_equal. f_equal. lia.
      * constructor; [|exact H2].
        cbn [u_version u_filename u_arch u_platform u_download_url
             u_platform_version u_stable u_file_name].
        repeat split; assumption.
    + apply IH.
Qed.

(** X21.  [apply_entries], as long as [update_version] returns, raises on no
    list of entries.  It calls [update_version] once for each entry that has
    the five required keys, in order, with the entry's own values, with
    [stable=True] and on the file named by the entry's version and
    architecture; entries lacking a required key cause no call; the number
    returned is the number of calls. *)
Theorem apply_entries_calls (entries : list dict) :
  exists calls,
    apply_entries entries = Some (calls, Z.of_nat (List.length calls))
    /\ Forall2 (fun d c =>
         getitem d "version" = Some (u_version c)
         /\ getitem d "filename" = Some (u_filename c)
         /\ getitem d "arch" = Some (u_arch c)
         /\ getitem d "platform" = Some (u_platform c)
         /\ getitem d "download_url" = Some (u_download_url c)
         /\ u_platform_version c = getitem d "platform_version"
         /\ u_stable c = true
         /\ u_file_name c = u_version c ++ str "-" ++ u_arch c ++ str ".json")
       (filter valid_entry entries) calls.
Proof.
  destruct (apply_loop_calls entries [] 0) as [cs [H1 H2]].
  exists cs. split; [exact H1 | exact H2].
Qed.

Lemma filter_valid_dicts (es : list PartialManifest.ManifestPart) :
  filter valid_entry (map as_dict es) = map as_dict es.
Proof.
  induction es as [|e es IH]; [reflexivity|]. cbn [map filter].
  change (valid_entry (as_dict e)) with true. now rewrite IH.
Qed.

(** X22.  Every entry [build_manifest_entries] produces has the required
    keys, so [apply_entries] applies each of them: one call of
    [update_version] per entry, with the entry's fields, the platform
    version present, [stable=True] whatever the version, and the file named
    by version and architecture. *)
Theorem generated_entries_all_applied (es : list PartialManifest.ManifestPart) :
  exists calls,
    apply_entries (map as_dict es) = Some (calls, Z.of_nat (List.length es))
    /\ Forall2 (fun e c =>
         u_version c = PartialManifest.mp_version e
         /\ u_filename c = PartialManifest.mp_filename e
         /\ u_arch c = PartialManifest.mp_arch e
         /\ u_platform c = PartialManifest.mp_platform e
         /\ u_download_url c = PartialManifest.mp_download_url e
         /\ u_platform_version c = Some (PartialManifest.mp_platform_version e)
         /\ u_stable c = true
         /\ u_file_name c = PartialManifest.mp_version e ++ str "-"
                            ++ PartialManifest.mp_arch e ++ str ".json")
       es calls.
Proof.
  destruct (apply_loop_calls (map as_dict es) [] 0) as [cs [H1 H2]].
  rewrite filter_valid_dicts in H2.
  assert (H3 : Forall2 (fun e c =>
         u_version c = PartialManifest.mp_version e
         /\ u_filename c = PartialManifest.mp_filename e
         /\ u_arch c = PartialManifest.mp_arch e
         /\ u_platform c = PartialManifest.mp_platform e
         /\ u_download_url c = PartialManifest.mp_download_url e
         /\ u_platform_version c = Some (PartialManifest.mp_platform_version e)
         /\ u_stable c = true
         /\ u_file_name c = PartialManifest.mp_version e ++ str "-"
                            ++ PartialManifest.mp_arch e ++ str ".json")
       es cs).
  { clear H1. revert cs H2. induction es as [|e es IH]; intros cs H2.
    - inversion H2. constructor.
    - cbn [map] in H2. inversion H2 as [|? c ? cs' Hc Hcs]; subst.
      constructor; [|now apply IH].
      destruct Hc as [A [B [C [D [E [F [G H]]]]]]].
      cbn in A, B, C, D, E, F.
      injection A as A. injection B as B. injection C as C.
      injection D as D. injection E as E.
      rewrite H, F, <- A, <- B, <- C, <- D, <- E. repeat split; assumption. }
  exists cs. split; [|exact H3].
  unfold apply_entries. rewrite H1. cbn [app]. f_equal. f_equal.
  rewrite Z.add_0_l. f_equal. symmetry. apply (Forall2_length H3).
Qed.

End ApplyFacts.
